(** * Chat summarization API: the fallback summarizer, the Gemini adapter
    and the conversation store handlers

  A shallow embedding of [backup_summary.py] and of the request handlers
  of [main.py], followed by the properties the specification states
  about them.

  Python values are modelled as follows.
  - [str]: a list of characters.  A character is one of the code points
    0..255 (Rocq's [ascii], read as Latin-1); on these code points
    [str.lower], [str.strip] and [str.split] are modelled exactly.
  - [list]: [list]; an insertion-ordered [dict]: an association list in
    insertion order; a [set]: stdpp's [gset].
  - an exception: a value of [exn]; code that may raise lives in the
    error monad [py]. *)

From Stdlib Require Import Ascii NArith ZArith.
From Stdlib Require Strings.String.
From stdpp Require Import base tactics option list sorting strings pretty gmap.

(** ** Python strings *)

Abbreviation str := (list ascii).

(** A string literal of the source. *)
Definition lit (s : string) : str := Stdlib.Strings.String.list_ascii_of_string s.

Module PyStr.

Definition code (c : ascii) : N := N_of_ascii c.

(** [str.isspace] on one character: the code points Python treats as
    whitespace below 256. *)
Definition isspace (c : ascii) : bool :=
  let n := code c in
  ((9 <=? n) && (n <=? 13) || (28 <=? n) && (n <=? 32)
   || (n =? 133) || (n =? 160))%N.

(** [str.lower] on one character: A-Z and the Latin-1 capitals
    (0xC0-0xDE without the multiplication sign 0xD7) move up by 32. *)
Definition lower_char (c : ascii) : ascii :=
  let n := code c in
  if ((65 <=? n) && (n <=? 90)
      || (192 <=? n) && (n <=? 222) && negb (n =? 215))%N
  then ascii_of_N (n + 32) else c.

Definition lower (s : str) : str := lower_char <$> s.

Fixpoint lstrip (s : str) : str :=
  match s with
  | [] => []
  | c :: s' => if isspace c then lstrip s' else s
  end.

Definition rstrip (s : str) : str := reverse (lstrip (reverse s)).

(** [s.strip()] *)
Definition strip (s : str) : str := rstrip (lstrip s).

(** [s.startswith(p)] *)
Fixpoint startswith (p s : str) : bool :=
  match p, s with
  | [], _ => true
  | _ :: _, [] => false
  | a :: p', c :: s' => bool_decide (a = c) && startswith p' s'
  end.

(** [sub in s] *)
Fixpoint contains (sub s : str) : bool :=
  startswith sub s ||
  match s with
  | [] => false
  | _ :: s' => contains sub s'
  end.

(** [s.split(sep)] for a separator of one character (every separator
    in the source is: a newline or a colon).  The result is never empty. *)
Fixpoint split (sep : ascii) (s : str) : list str :=
  match s with
  | [] => [[]]
  | c :: s' =>
      if bool_decide (c = sep) then [] :: split sep s'
      else match split sep s' with
           | w :: ws => (c :: w) :: ws
           | [] => [[c]]
           end
  end.

(** [s.split(sep, 1)]: cut at the first separator only. *)
Fixpoint split1 (sep : ascii) (s : str) : list str :=
  match s with
  | [] => [[]]
  | c :: s' =>
      if bool_decide (c = sep) then [[]; s']
      else match split1 sep s' with
           | w :: ws => (c :: w) :: ws
           | [] => [[c]]
           end
  end.

(** [s.split()]: the maximal runs of non-whitespace characters.
    [cur] holds the characters of the current run, last one first. *)
Fixpoint split_ws_go (cur : str) (s : str) : list str :=
  match s with
  | [] => match cur with [] => [] | _ => [reverse cur] end
  | c :: s' =>
      if isspace c
      then match cur with
           | [] => split_ws_go [] s'
           | _ => reverse cur :: split_ws_go [] s'
           end
      else split_ws_go (c :: cur) s'
  end.

Definition split_ws (s : str) : list str := split_ws_go [] s.

(** [s.replace(old, new)] for a non-empty [old]: occurrences are found
    from the left and do not overlap.  [skip] counts the characters of
    a matched occurrence that are still to be passed over. *)
Fixpoint replace_go (old new : str) (skip : nat) (s : str) : str :=
  match s with
  | [] => []
  | c :: s' =>
      match skip with
      | S k => replace_go old new k s'
      | O => if startswith old s
             then new ++ replace_go old new (length old - 1) s'
             else c :: replace_go old new 0 s'
      end
  end.

Definition replace (old new s : str) : str := replace_go old new 0 s.

(** [sep.join(l)] *)
Fixpoint join (sep : str) (l : list str) : str :=
  match l with
  | [] => []
  | [w] => w
  | w :: ws => w ++ sep ++ join sep ws
  end.

(** [str(n)] for a non-negative integer, as an f-string renders it. *)
Definition of_nat (n : nat) : str :=
  Stdlib.Strings.String.list_ascii_of_string (pretty n).

End PyStr.

(** ** Exceptions *)

(** An exception instance: its class name and [str(e)]. *)
Inductive exn : Type := Exn (cls msg : str).

Definition exn_str (e : exn) : str := match e with Exn _ m => m end.

Inductive py (A : Type) : Type :=
| Ret (a : A)
| Raise (e : exn).
Arguments Ret {A} a.
Arguments Raise {A} e.

Global Instance py_ret : MRet py := λ A a, Ret a.

Global Instance py_bind : MBind py := λ A B k m,
match m with
| Ret a => k a
| Raise e => Raise e
end.

(** [try: m  except Exception as e: h e] *)
Definition try_except {A} (m : py A) (h : exn → py A) : py A :=
match m with
| Ret a => Ret a
| Raise e => h e
end.

Definition IndexError : exn :=
Exn (lit "IndexError") (lit "list index out of range").

(** [l[i]] for [i >= 0] *)
Definition getitem {A} (l : list A) (i : nat) : py A :=
match l !! i with
| Some a => Ret a
| None => Raise IndexError
end.

(** [l[-1]] *)
Definition getlast {A} (l : list A) : py A :=
match last l with
| Some a => Ret a
| None => Raise IndexError
end.

(** [for x in l: body], threading the loop state [acc]. *)
Fixpoint py_for {A S} (l : list A) (body : S → A → py S) (acc : S) : py S :=
match l with
| [] => Ret acc
| x :: l' => acc' ← body acc x; py_for l' body acc'
end.

(** ** A stable sort

  [sorted(l, key=..., reverse=True)] keeps elements with equal keys in
  their original order, and so does every stable sort; this one inserts
  from the right.  [before y x] says that [y] must come strictly before
  [x]. *)
Section stable_sort.
Context {A : Type} (before : A → A → bool).

Fixpoint insert_sorted (x : A) (l : list A) : list A :=
  match l with
  | [] => [x]
  | y :: l' => if before y x then y :: insert_sorted x l' else x :: l
  end.

Fixpoint stable_sort (l : list A) : list A :=
  match l with
  | [] => []
  | x :: l' => insert_sorted x (stable_sort l')
  end.

(** The order a stable sort produces: by [before] first and, among
    elements that [before] does not separate, by [earlier], their order
    in the input. *)
Definition ranked_before (earlier : relation A) (a b : A) : Prop :=
  before a b = true ∨ (before b a = false ∧ earlier a b).
End stable_sort.

(** ** backup_summary.py *)

Module BackupSummary.
Import PyStr.

Definition newline : ascii := "010"%char.
Definition colon : ascii := ":"%char.

(** [conversation_text.strip().split('\n')] *)
Definition lines_of (conversation_text : str) : list str :=
  split newline (strip conversation_text).

(** [line.split(":")[0].replace("User ", "").strip()] *)
Definition user_id_of (line : str) : py str :=
  head_part ← getitem (split colon line) 0;
  Ret (strip (replace (lit "User ") [] head_part)).

(** The loop over [lines] that fills the set [user_ids]. *)
Definition collect_user_ids (lines : list str) : py (gset str) :=
  py_for lines
    (λ user_ids line,
       if startswith (lit "User ") line
       then user_id ← user_id_of line; Ret ({[ user_id ]} ∪ user_ids)
       else Ret user_ids)
    ∅.

(** [word_freq.get(word, 0)] *)
Fixpoint dict_get (d : list (str * nat)) (word : str) (dflt : nat) : nat :=
  match d with
  | [] => dflt
  | (k, v) :: d' => if bool_decide (k = word) then v else dict_get d' word dflt
  end.

(** [word_freq[word] = v]: an existing key keeps its place, a new key
    goes to the end. *)
Fixpoint dict_set (d : list (str * nat)) (word : str) (v : nat)
  : list (str * nat) :=
  match d with
  | [] => [(word, v)]
  | (k, v') :: d' =>
      if bool_decide (k = word) then (k, v) :: d'
      else (k, v') :: dict_set d' word v
  end.

(** The loop over [words] that fills [word_freq]. *)
Definition count_words (words : list str) : list (str * nat) :=
  foldl (λ word_freq word,
           if bool_decide (4 < length word)
           then dict_set word_freq word (dict_get word_freq word 0 + 1)
           else word_freq)
        [] words.

(** [conversation_text.lower().split()] *)
Definition words_of (conversation_text : str) : list str :=
  split_ws (lower conversation_text).

Definition word_freq_of (conversation_text : str) : list (str * nat) :=
  count_words (words_of conversation_text).

(** [sorted(word_freq.items(), key=lambda x: x[1], reverse=True)] *)
Definition ranked (word_freq : list (str * nat)) : list (str * nat) :=
  stable_sort (λ y x, bool_decide (x.2 < y.2)) word_freq.

(** [[word for word, _ in sorted(...)[:5]]] *)
Definition top_words_of (conversation_text : str) : list str :=
  (take 5 (ranked (word_freq_of conversation_text))).*1.

(** [line.split(":", 1)[1].strip() if ":" in line else line] *)
Definition msg_of (line : str) : py str :=
  if contains [colon] line
  then tail_part ← getitem (split1 colon line) 1; Ret (strip tail_part)
  else Ret line.

Definition header (message_count participants : nat) : str :=
  lit "This conversation consists of " ++ of_nat message_count
  ++ lit " messages between " ++ of_nat participants
  ++ lit " participants. ".

Definition topics_clause (top_words : list str) : str :=
  lit "Key topics appear to include: " ++ join (lit ", ") top_words
  ++ lit ". ".

Definition starts_clause (first_msg : str) : str :=
  lit "The conversation starts with '" ++ take 30 first_msg ++ lit "...' ".

Definition ends_clause (last_msg : str) : str :=
  lit "and ends with '" ++ take 30 last_msg ++ lit "...'".

Definition generate_simple_summary (conversation_text : str)
    (max_length : option Z) : py str :=
  let lines := lines_of conversation_text in
  let message_count := length lines in
  user_ids ← collect_user_ids lines;
  let top_words := top_words_of conversation_text in
  let summary := header message_count (size user_ids) in
  let summary :=
    match top_words with
    | [] => summary
    | _ => summary ++ topics_clause top_words
    end in
  match lines with
  | [] => Ret summary
  | _ =>
      first_line ← getitem lines 0;
      first_msg ← msg_of first_line;
      let summary := summary ++ starts_clause first_msg in
      last_line ← getlast lines;
      last_msg ← msg_of last_line;
      Ret (summary ++ ends_clause last_msg)
  end.

End BackupSummary.

(** ** main.py *)

Module Main.
Import PyStr.

(** *** The Gemini adapter *)

(** What reading an attribute of the API's response object does: the
    attribute is missing ([AttributeError], which [hasattr] turns into
    [False]), it has a value, or its accessor raises another exception,
    which [hasattr] lets through. *)
Inductive attr (A : Type) : Type :=
| Missing
| Has (a : A)
| Throws (e : exn).
Arguments Missing {A}.
Arguments Has {A} a.
Arguments Throws {A} e.

Definition AttributeError : exn :=
  Exn (lit "AttributeError") (lit "object has no such attribute").

Definition hasattr {A} (a : attr A) : py bool :=
  match a with
  | Missing => Ret false
  | Has _ => Ret true
  | Throws e => Raise e
  end.

Definition getattr {A} (a : attr A) : py A :=
  match a with
  | Missing => Raise AttributeError
  | Has v => Ret v
  | Throws e => Raise e
  end.

(** The response of [model.generate_content]: its [text] attribute and
    its [candidates], each candidate given by the texts of
    [content.parts]. *)
Record response : Type := {
  text : attr str;
  candidates : attr (list (list str));
}.

(** [str(max_length)] inside the prompt's f-string; the argument is an
    [int], or [None] when the request body carries a null. *)
Definition render_int (n : option Z) : str :=
  match n with
  | Some z => Stdlib.Strings.String.list_ascii_of_string (pretty z)
  | None => lit "None"
  end.

Definition prompt_of (conversation_text : str) (max_length : option Z) : str :=
  lit "Summarize the following conversation in about "
  ++ render_int max_length ++ lit " words:" ++ [BackupSummary.newline]
  ++ [BackupSummary.newline] ++ conversation_text.

Definition config_error : str :=
  lit "Error: Gemini API key not configured. Please set the GEMINI_API_KEY environment variable.".

(** The body of the [try] block.  [generate_content] stands for
    [genai.configure], the model's construction and
    [model.generate_content]: it answers the prompt with a response or
    raises. *)
Definition gemini_request (generate_content : str → py response)
    (conversation_text : str) (max_length : option Z) : py str :=
  response ← generate_content (prompt_of conversation_text max_length);
  has_text ← hasattr (text response);
  if has_text : bool then getattr (text response)
  else
    has_candidates ← hasattr (candidates response);
    cands ← (if has_candidates : bool then getattr (candidates response)
             else Ret []);
    match cands with
    | _ :: _ =>
        cands' ← getattr (candidates response);
        parts ← getitem cands' 0;
        getitem parts 0
    | [] => BackupSummary.generate_simple_summary conversation_text max_length
    end.

(** The truth value of an optional string: [None] and the empty string
    are false. *)
Definition truthy (s : option str) : bool :=
  match s with
  | None | Some [] => false
  | Some (_ :: _) => true
  end.

(** [GEMINI_API_KEY] is [os.getenv("GEMINI_API_KEY")]. *)
Definition get_gemini_summary (GEMINI_API_KEY : option str)
    (generate_content : str → py response)
    (conversation_text : str) (max_length : option Z) : py str :=
  if negb (truthy GEMINI_API_KEY) then Ret config_error
  else
    try_except
      (gemini_request generate_content conversation_text max_length)
      (λ e,
         try_except
           (BackupSummary.generate_simple_summary conversation_text max_length)
           (λ _, Ret (lit "Error generating summary: " ++ exn_str e))).

(** *** Documents and the store *)

(** A JSON value of a message's [metadata]. *)
#[warnings="-register-all"]
Inductive json : Type :=
| JNull
| JBool (b : bool)
| JNum (z : Z)
| JStr (s : str)
| JList (l : list json)
| JDict (d : list (str * json)).

(** The request model [ChatMessage]. *)
Record ChatMessage : Type := {
  user_id : str;
  message : str;
  timestamp : option str;
  conversation_id : option str;
  metadata : option (list (str * json));
}.

(** A document of the [chats] collection: [chat.dict()] with its
    conversation id filled in and the [_id] the store gave it (an
    ObjectId, kept as its string). *)
Record chat_doc : Type := {
  d_id : str;
  d_user_id : str;
  d_message : str;
  d_timestamp : option str;
  d_conversation_id : str;
  d_metadata : option (list (str * json));
}.

(** A document of the [summaries] collection. *)
Record summary_doc : Type := {
  s_conversation_id : str;
  s_summary : str;
  s_created_at : str;
}.

Record db : Type := {
  chats : list chat_doc;
  summaries : list summary_doc;
}.

(** The response model [ChatResponse]. *)
Record ChatResponse : Type := {
  r_id : str;
  r_user_id : str;
  r_message : str;
  r_timestamp : str;
  r_conversation_id : option str;
  r_metadata : option (list (str * json));
}.

Record ChatPaginationResponse : Type := {
  p_chats : list ChatResponse;
  p_total : nat;
  p_page : Z;
  p_limit : Z;
}.

(** What a handler answers: a body with its status code, or an
    [HTTPException]. *)
Inductive http (A : Type) : Type :=
| Response (status : nat) (body : A)
| HTTPException (status_code : nat) (detail : str).
Arguments Response {A} status body.
Arguments HTTPException {A} status_code detail.

(** The order of strings in the store: code point by code point. *)
Fixpoint str_ltb (a b : str) : bool :=
  match a, b with
  | _, [] => false
  | [], _ :: _ => true
  | x :: a', y :: b' =>
      (code x <? code y)%N || ((code x =? code y)%N && str_ltb a' b')
  end.

(** The order of [timestamp] values in the store: null sorts before every
    string. *)
Definition ts_ltb (a b : option str) : bool :=
  match a, b with
  | _, None => false
  | None, Some _ => true
  | Some x, Some y => str_ltb x y
  end.

(** [.sort("timestamp", 1)], ascending, and [.sort("timestamp", -1)],
    descending.  The store fixes no order among equal timestamps; the
    model keeps them in insertion order.  Whatever that order is, the
    sorted list has the same timestamps at the same places
    ([sorted_timestamps_unique]); the properties below speak of
    timestamps, lengths and membership only, or assume that the
    timestamps compared are distinct, which leaves one sorted list
    ([newest_first_unique]). *)
Definition sort_timestamp (direction : Z) (l : list chat_doc) : list chat_doc :=
  if (0 <=? direction)%Z
  then stable_sort (λ y x, ts_ltb (d_timestamp y) (d_timestamp x)) l
  else stable_sort (λ y x, ts_ltb (d_timestamp x) (d_timestamp y)) l.

(** Validation of a document against [ChatResponse] after
    [mongo_to_dict] and the renaming of [_id] to [id]: [timestamp] must
    be a string. *)
Definition ValidationError : exn :=
  Exn (lit "ValidationError") (lit "timestamp: none is not an allowed value").

Definition to_response (d : chat_doc) : py ChatResponse :=
  match d_timestamp d with
  | Some ts =>
      Ret {| r_id := d_id d; r_user_id := d_user_id d;
             r_message := d_message d; r_timestamp := ts;
             r_conversation_id := Some (d_conversation_id d);
             r_metadata := d_metadata d |}
  | None => Raise ValidationError
  end.

(** A document and the [ChatResponse] it validates to. *)
Definition response_of (d : chat_doc) (r : ChatResponse) : Prop :=
  to_response d = Ret r.

Definition to_responses (l : list chat_doc) : py (list ChatResponse) :=
  py_for l (λ result chat, r ← to_response chat; Ret (result ++ [r])) [].

(** A driver call that fails raises; [fault] is the exception of the
    call, if it fails. *)
Definition driver {A} (fault : option exn) (result : A) : py A :=
  match fault with
  | Some e => Raise e
  | None => Ret result
  end.

Definition matches_conversation (cid : str) (d : chat_doc) : bool :=
  bool_decide (d_conversation_id d = cid).

(** [GET /chats/{conversation_id}] *)
Definition retrieve_chat (fault : option exn) (conversation_id : str) (st : db)
  : http (list ChatResponse) :=
  match driver fault
          (take 100 (sort_timestamp 1
             (filter (λ d, matches_conversation conversation_id d) (chats st))))
  with
  | Raise e => HTTPException 500 (lit "Failed to retrieve chat: " ++ exn_str e)
  | Ret [] => HTTPException 404 (lit "Conversation not found")
  | Ret found =>
      match to_responses found with
      | Ret result => Response 200 result
      | Raise _ => HTTPException 500 (lit "Internal Server Error")
      end
  end.

(** [DELETE /chats/{conversation_id}].  [fault_chats] and
    [fault_summaries] are the faults of the two [delete_many] calls. *)
Definition delete_chat (fault_chats fault_summaries : option exn)
    (conversation_id : str) (st : db) : db * http str :=
  let matching :=
    filter (λ d, matches_conversation conversation_id d) (chats st) in
  match driver fault_chats (length matching) with
  | Raise e =>
      (st, HTTPException 500 (lit "Failed to delete chat: " ++ exn_str e))
  | Ret deleted_count =>
      let st1 :=
        {| chats :=
             filter (λ d, negb (matches_conversation conversation_id d))
               (chats st);
           summaries := summaries st |} in
      match deleted_count with
      | S _ =>
          match driver fault_summaries tt with
          | Raise e =>
              (st1,
               HTTPException 500 (lit "Failed to delete chat: " ++ exn_str e))
          | Ret _ =>
              ({| chats := chats st1;
                  summaries :=
                    filter (λ s, negb (bool_decide
                                         (s_conversation_id s = conversation_id)))
                      (summaries st1) |},
               Response 200 (lit "Chat deleted successfully. Removed "
                             ++ of_nat deleted_count ++ lit " messages."))
          end
      | O => (st1, HTTPException 404 (lit "Chat not found"))
      end
  end.

(** The conversation id of [chat_dict]: a missing or empty id is
    replaced by [fresh_conversation], the string of a new ObjectId. *)
Definition conversation_of (fresh_conversation : str) (chat : ChatMessage)
  : str :=
  match conversation_id chat with
  | None | Some [] => fresh_conversation
  | Some cid => cid
  end.

Definition doc_of (inserted_id fresh_conversation : str) (chat : ChatMessage)
  : chat_doc :=
  {| d_id := inserted_id; d_user_id := user_id chat;
     d_message := message chat; d_timestamp := timestamp chat;
     d_conversation_id := conversation_of fresh_conversation chat;
     d_metadata := metadata chat |}.

(** [POST /chats].  [inserted_id] is the [_id] the store assigns. *)
Definition store_chat (fault : option exn) (inserted_id fresh_conversation : str)
    (chat : ChatMessage) (st : db) : db * http (str * str) :=
  match driver fault inserted_id with
  | Raise e => (st, HTTPException 500 (lit "Failed to store chat: " ++ exn_str e))
  | Ret new_id =>
      ({| chats := chats st ++ [doc_of new_id fresh_conversation chat];
          summaries := summaries st |},
       Response 201 (new_id, lit "Chat stored successfully"))
  end.

(** [POST /chats/bulk].  Each message comes with the [_id] the store
    assigns to it and the ObjectId string drawn for its conversation. *)
Definition store_chats_bulk (fault : option exn)
    (chats_in : list (str * str * ChatMessage)) (st : db)
  : db * http (str * nat * option (list str)) :=
  let chat_dicts := (λ c, doc_of c.1.1 c.1.2 c.2) <$> chats_in in
  match chat_dicts with
  | [] => (st, Response 201 (lit "No chats to insert", 0, None))
  | _ =>
      match driver fault (d_id <$> chat_dicts) with
      | Raise e =>
          (st, HTTPException 500 (lit "Failed to store chats: " ++ exn_str e))
      | Ret inserted_ids =>
          ({| chats := chats st ++ chat_dicts; summaries := summaries st |},
           Response 201 (lit "Chats stored successfully",
                         length inserted_ids, Some inserted_ids))
      end
  end.

(** The transcript [summarize_chat] builds: one line
    ["User {user_id}: {message}\n"] per message. *)
Definition transcript_of (found : list chat_doc) : str :=
  foldl (λ conversation_text chat,
           conversation_text ++ lit "User " ++ d_user_id chat ++ lit ": "
           ++ d_message chat ++ [BackupSummary.newline])
        [] found.

(** [POST /chats/summarize].  [now] is [datetime.now().isoformat()]. *)
Definition summarize_chat (fault_find fault_insert : option exn)
    (GEMINI_API_KEY : option str) (generate_content : str → py response)
    (now : str) (conversation_id : str) (max_length : option Z) (st : db)
  : db * http (str * str) :=
  match driver fault_find
          (take 100 (sort_timestamp 1
             (filter (λ d, matches_conversation conversation_id d) (chats st))))
  with
  | Raise e => (st, HTTPException 500 (lit "Failed to summarize chat: " ++ exn_str e))
  | Ret [] => (st, HTTPException 404 (lit "Conversation not found"))
  | Ret found =>
      match get_gemini_summary GEMINI_API_KEY generate_content
              (transcript_of found) max_length with
      | Raise e =>
          (st, HTTPException 500 (lit "Failed to summarize chat: " ++ exn_str e))
      | Ret summary =>
          match driver fault_insert tt with
          | Raise e =>
              (st, HTTPException 500 (lit "Failed to summarize chat: " ++ exn_str e))
          | Ret _ =>
              ({| chats := chats st;
                  summaries := summaries st ++
                    [{| s_conversation_id := conversation_id;
                        s_summary := summary; s_created_at := now |}] |},
               Response 200 (conversation_id, summary))
          end
      end
  end.

(** The filter of [get_user_chats]: the sender, the optional bounds on
    [timestamp] (a comparison matches strings only) and the optional
    keyword, matched by the store's text index [text_search]. *)
Definition in_range (start_date end_date : option str) (d : chat_doc) : bool :=
  if truthy start_date || truthy end_date
  then match d_timestamp d with
       | None => false
       | Some ts =>
           (if truthy start_date
            then negb (str_ltb ts (default [] start_date)) else true)
           && (if truthy end_date
               then negb (str_ltb (default [] end_date) ts) else true)
       end
  else true.

Definition user_query (text_search : str → str → bool) (user : str)
    (start_date end_date keyword : option str) (d : chat_doc) : bool :=
  bool_decide (d_user_id d = user)
  && in_range start_date end_date d
  && (if truthy keyword then text_search (default [] keyword) (d_message d)
      else true).

(** [GET /users/{user_id}/chats].  [page >= 1] and [1 <= limit <= 100]
    are checked by the declared [Query] constraints before the handler
    runs; a request that violates them is answered 422. *)
Definition get_user_chats (fault_find fault_count : option exn)
    (text_search : str → str → bool) (user : str) (page limit : Z)
    (start_date end_date keyword : option str) (st : db)
  : http ChatPaginationResponse :=
  if negb ((1 <=? page)%Z && (1 <=? limit)%Z && (limit <=? 100)%Z)
  then HTTPException 422 (lit "Unprocessable Entity")
  else
    let query := user_query text_search user start_date end_date keyword in
    let skip := ((page - 1) * limit)%Z in
    let run : py ChatPaginationResponse :=
      found ← driver fault_find
                (take (Z.to_nat limit)
                   (take (Z.to_nat limit)
                      (drop (Z.to_nat skip)
                         (sort_timestamp (-1) (filter (λ d, query d) (chats st))))));
      total ← driver fault_count (length (filter (λ d, query d) (chats st)));
      result ← to_responses found;
      Ret {| p_chats := result; p_total := total;
             p_page := page; p_limit := limit |} in
    match run with
    | Ret r => Response 200 r
    | Raise e =>
        HTTPException 500 (lit "Failed to retrieve user chats: " ++ exn_str e)
    end.

(** The store after any sequence of requests whose driver calls all
    succeed, starting from empty collections. *)
Inductive reachable : db → Prop :=
| reach_empty : reachable {| chats := []; summaries := [] |}
| reach_store st new_id fresh chat :
    reachable st →
    reachable (store_chat None new_id fresh chat st).1
| reach_bulk st chats_in :
    reachable st →
    reachable (store_chats_bulk None chats_in st).1
| reach_summarize st key api now cid max_length :
    reachable st →
    reachable (summarize_chat None None key api now cid max_length st).1
| reach_delete st cid :
    reachable st →
    reachable (delete_chat None None cid st).1.

(** *** mongo_to_dict *)

(** A value inside a document the driver returns.  An ObjectId is given
    by its 24 hexadecimal digits, which is what [str] makes of it. *)
#[warnings="-register-all"]
Inductive bson : Type :=
| BObjectId (hex : str)
| BNull
| BBool (b : bool)
| BInt (z : Z)
| BStr (s : str)
| BList (l : list bson)
| BDict (d : list (str * bson)).

(** [mongo_to_dict]: inside a dict or a list every ObjectId becomes its
    string and every dict or list is converted in turn; anything else,
    and an object that is neither a dict nor a list, is left as it is. *)
Fixpoint mongo_to_dict (obj : bson) : bson :=
  let convert (v : bson) : bson :=
    match v with
    | BObjectId hex => BStr hex
    | BDict _ | BList _ => mongo_to_dict v
    | _ => v
    end in
  match obj with
  | BDict d => BDict (map (λ kv, match kv with (k, v) => (k, convert v) end) d)
  | BList l => BList (map convert l)
  | _ => obj
  end.

(** No ObjectId anywhere in the value. *)
Fixpoint no_object_id (v : bson) : bool :=
  match v with
  | BObjectId _ => false
  | BList l => forallb no_object_id l
  | BDict d => forallb (λ kv, match kv with (_, v) => no_object_id v end) d
  | _ => true
  end.

(** "Every ObjectId becomes its string": the value with each ObjectId,
    at any depth, replaced by the string of its digits and nothing else
    changed. *)
Fixpoint stringify (v : bson) : bson :=
  match v with
  | BObjectId hex => BStr hex
  | BList l => BList (map stringify l)
  | BDict d => BDict (map (λ kv, match kv with (k, v) => (k, stringify v) end) d)
  | _ => v
  end.

(** The number of constructors of a value. *)
Fixpoint bson_size (v : bson) : nat :=
  match v with
  | BList l => S (list_sum (map bson_size l))
  | BDict d => S (list_sum (map (λ kv, match kv with (_, v) => bson_size v end) d))
  | _ => 1
  end.

(** A JSON value of a request body as the store holds it. *)
Fixpoint json_to_bson (j : json) : bson :=
  match j with
  | JNull => BNull
  | JBool b => BBool b
  | JNum z => BInt z
  | JStr s => BStr s
  | JList l => BList (map json_to_bson l)
  | JDict d => BDict (map (λ kv, match kv with (k, v) => (k, json_to_bson v) end) d)
  end.

Definition option_to_bson {A} (f : A → bson) (o : option A) : bson :=
  match o with
  | Some a => f a
  | None => BNull
  end.

(** The document of the [chats] collection that [find] yields for
    [d]: the fields of [chat.dict()] and the [_id] of the store. *)
Definition doc_bson (d : chat_doc) : bson :=
  BDict [(lit "_id", BObjectId (d_id d));
         (lit "user_id", BStr (d_user_id d));
         (lit "message", BStr (d_message d));
         (lit "timestamp", option_to_bson BStr (d_timestamp d));
         (lit "conversation_id", BStr (d_conversation_id d));
         (lit "metadata",
          option_to_bson
            (λ m, BDict (map (λ kv, match kv with
                                    | (k, v) => (k, json_to_bson v)
                                    end) m))
            (d_metadata d))].

(** One line of the transcript, without its newline:
    ["User {chat['user_id']}: {chat['message']}"]. *)
Definition transcript_line (chat : chat_doc) : str :=
  lit "User " ++ d_user_id chat ++ lit ": " ++ d_message chat.

End Main.

(** ** The specification's wording, for comparison with the code *)

Module Spec.
Import PyStr.

(** "[line_count] = number of non-empty-trimmed lines after an initial
    trim of leading/trailing whitespace on the whole text". *)
Definition line_count (conversation_text : str) : nat :=
  length (filter (λ l, strip l ≠ [])
            (split BackupSummary.newline (strip conversation_text))).

(** "the substring before the first colon" *)
Fixpoint before_first (c : ascii) (s : str) : str :=
  match s with
  | [] => []
  | x :: s' => if bool_decide (x = c) then [] else x :: before_first c s'
  end.

(** "the text after it": what follows the first colon, if there is one. *)
Fixpoint after_first (c : ascii) (s : str) : option str :=
  match s with
  | [] => None
  | x :: s' => if bool_decide (x = c) then Some s' else after_first c s'
  end.

(** "strip the ["User "] prefix" *)
Definition strip_prefix (p s : str) : str :=
  if startswith p s then drop (length p) s else s.

(** "for every line that starts with the literal prefix ["User "], take
    the substring before the first colon, strip the ["User "] prefix,
    trim whitespace; collect into a set". *)
Definition sender_id (line : str) : str :=
  strip (strip_prefix (lit "User ") (before_first BackupSummary.colon line)).

Definition participant_count (conversation_text : str) : nat :=
  size (list_to_set (C := gset str)
          (sender_id <$> filter (λ l, startswith (lit "User ") l)
                           (BackupSummary.lines_of conversation_text))).

(** The number of occurrences of [w] in [ws]. *)
Definition occurrences (w : str) (ws : list str) : nat :=
  length (filter (λ x, x = w) ws).

(** The place of the first occurrence of [w] in [ws] ([length ws] when
    there is none). *)
Fixpoint first_index (w : str) (ws : list str) : nat :=
  match ws with
  | [] => 0
  | x :: ws' => if bool_decide (x = w) then 0 else S (first_index w ws')
  end.

End Spec.

(** ** run_model_test.py *)

Module RunModelTest.

(** The model names [main] starts from. *)
Definition default_model_names : list str :=
  [lit "gemini-pro"; lit "gemini-1.0-pro"; lit "models/gemini-1.5-flash";
   lit "models/gemini-1.5-pro"; lit "models/gemini-pro"].

(** The loop that adds the models the API lists:
    [if model not in model_names: model_names.append(model)]. *)
Definition add_models (model_names content_models : list str) : list str :=
  foldl (λ names model,
           if bool_decide (model ∈ names) then names else names ++ [model])
        model_names content_models.

(** [test_model]: [True] when the call answers with a response that has
    a [text], [False] otherwise and on any exception. *)
Definition test_model (generate_content : str → py Main.response)
    (model_name : str) : bool :=
  match
    try_except
      (response ← generate_content model_name;
       has_text ← Main.hasattr (Main.text response);
       if has_text : bool then _ ← Main.getattr (Main.text response); Ret true
       else Ret false)
      (λ _, Ret false)
  with
  | Ret b => b
  | Raise _ => false
  end.

(** [working_models] after the loop over [model_names]. *)
Definition working_models (generate_content : str → py Main.response)
    (model_names : list str) : list str :=
  foldl (λ working model_name,
           if test_model generate_content model_name
           then working ++ [model_name] else working)
        [] model_names.

End RunModelTest.

(** * Properties *)

(** ** Facts about the string operations *)

Section pystr_facts.
Import PyStr.

(** The operations on the inputs Python's documentation and the source
    use them on. *)
Example isspace_code_points :
  filter (λ n, isspace (ascii_of_nat n)) (seq 0 256)
  = [9; 10; 11; 12; 13; 28; 29; 30; 31; 32; 133; 160].
Proof. by vm_compute. Qed.

Example lower_example : lower (lit "User A: Hello") = lit "user a: hello".
Proof. by vm_compute. Qed.

Example strip_split_empty : split "010"%char (strip []) = [[]].
Proof. by vm_compute. Qed.

Example split1_example :
  split1 ":"%char (lit "a:b:c") = [lit "a"; lit "b:c"].
Proof. by vm_compute. Qed.

Example split_ws_example :
  split_ws (lit "  hello   big world ") = [lit "hello"; lit "big"; lit "world"].
Proof. by vm_compute. Qed.

Example replace_every_occurrence :
  replace (lit "User ") [] (lit "User User A") = lit "A".
Proof. by vm_compute. Qed.

Example replace_no_overlap : replace (lit "XX") [] (lit "aXXXb") = lit "aXb".
Proof. by vm_compute. Qed.

Lemma split_length sep s :
  length (split sep s) = S (length (filter (λ c, c = sep) s)).
Proof.
  induction s as [|c s IH]; simpl; [done|].
  rewrite filter_cons. case_bool_decide; case_decide; try done; simpl.
  - by rewrite IH.
  - destruct (split sep s); simpl in *; [lia|done].
Qed.

Lemma split_not_nil sep s : split sep s ≠ [].
Proof. intros H. pose proof (split_length sep s) as Hl. by rewrite H in Hl. Qed.

Lemma split_head sep s : head (split sep s) = Some (Spec.before_first sep s).
Proof.
  induction s as [|c s IH]; simpl; [done|].
  case_bool_decide; [done|].
  destruct (split sep s); simpl in *; congruence.
Qed.

Lemma contains_char c s : contains [c] s = true ↔ c ∈ s.
Proof.
  induction s as [|x s IH]; simpl.
  - split; [done|]. by intros ?%elem_of_nil.
  - rewrite andb_true_r, orb_true_iff, bool_decide_eq_true, IH, elem_of_cons.
    done.
Qed.

Lemma after_first_None c s : Spec.after_first c s = None ↔ c ∉ s.
Proof.
  induction s as [|x s IH]; simpl.
  - split; [|done]. intros _ ?%elem_of_nil. done.
  - rewrite not_elem_of_cons. case_bool_decide as Hx.
    + split; [done|]. intros [? _]. congruence.
    + rewrite IH. split; [|by intros [_ ?]]. intros ?. split; [congruence|done].
Qed.

(** The first colon cuts a line into what is before and what is after. *)
Lemma after_first_Some c s t :
  Spec.after_first c s = Some t →
  s = Spec.before_first c s ++ c :: t ∧ c ∉ Spec.before_first c s.
Proof.
  revert t. induction s as [|x s IH]; intros t; simpl; [done|].
  case_bool_decide as Hx.
  - intros [= ->]. subst x. split; [done|]. by intros ?%elem_of_nil.
  - intros Ht. destruct (IH t Ht) as [Hs Hn]. split.
    + simpl. by rewrite <-Hs.
    + rewrite not_elem_of_cons. split; [congruence|done].
Qed.

Lemma split1_after sep s :
  split1 sep s =
    match Spec.after_first sep s with
    | Some t => [Spec.before_first sep s; t]
    | None => [s]
    end.
Proof.
  induction s as [|c s IH]; simpl; [done|].
  case_bool_decide; [done|]. rewrite IH.
  by destruct (Spec.after_first sep s).
Qed.

Lemma lstrip_nil_inv s : lstrip s = [] → Forall (λ c, isspace c = true) s.
Proof.
  induction s as [|c s IH]; simpl; [constructor|].
  destruct (isspace c) eqn:Hc; [|done]. intros ?. constructor; auto.
Qed.

End pystr_facts.

(** ** The fallback summarizer never raises *)

Section summary_facts.
Import PyStr BackupSummary.

(** The identifier the loop extracts from a ["User "] line. *)
Lemma user_id_of_ret (line : str) :
  user_id_of line
  = Ret (strip (replace (lit "User ") [] (Spec.before_first colon line))).
Proof.
  unfold user_id_of, getitem. rewrite <-head_lookup, split_head. done.
Qed.

Lemma collect_user_ids_from (lines : list str) (acc : gset str) :
  py_for lines
    (λ user_ids line,
       if startswith (lit "User ") line
       then user_id ← user_id_of line; Ret ({[ user_id ]} ∪ user_ids)
       else Ret user_ids) acc
  = Ret (list_to_set
           ((λ l, strip (replace (lit "User ") [] (Spec.before_first colon l)))
              <$> filter (λ l, startswith (lit "User ") l) lines) ∪ acc).
Proof.
  revert acc. induction lines as [|line lines IH]; intros acc.
  - simpl. f_equal. by rewrite (left_id_L ∅ (∪)).
  - cbn [py_for]. rewrite filter_cons.
    destruct (startswith (lit "User ") line) eqn:Hp.
    + rewrite user_id_of_ret. cbn [mbind py_bind]. rewrite IH.
      rewrite decide_True by done. rewrite fmap_cons, list_to_set_cons.
      f_equal. rewrite (assoc_L (∪)). f_equal. apply (comm_L (∪)).
    + cbn [mbind py_bind]. rewrite IH.
      rewrite decide_False by (by intros []). done.
Qed.

Lemma collect_user_ids_ret (lines : list str) :
  collect_user_ids lines
  = Ret (list_to_set
           ((λ l, strip (replace (lit "User ") [] (Spec.before_first colon l)))
              <$> filter (λ l, startswith (lit "User ") l) lines)).
Proof.
  unfold collect_user_ids. rewrite collect_user_ids_from.
  by rewrite (right_id_L ∅ (∪)).
Qed.

(** The text a snippet is cut from: what follows the first colon,
    trimmed, or the whole line when it has no colon. *)
Lemma msg_of_ret (line : str) :
  msg_of line
  = Ret (match Spec.after_first colon line with
         | Some t => strip t
         | None => line
         end).
Proof.
  unfold msg_of. rewrite split1_after.
  destruct (Spec.after_first colon line) as [t|] eqn:Ht.
  - assert (contains [colon] line = true) as ->; [|done].
    apply contains_char. destruct (decide (colon ∈ line)) as [|Hn]; [done|].
    apply after_first_None in Hn. congruence.
  - apply after_first_None in Ht.
    destruct (contains [colon] line) eqn:Hc; [|done].
    by apply contains_char in Hc.
Qed.

(** The summary the function returns, clause by clause. *)
Lemma generate_simple_summary_ret conversation_text max_length :
  ∃ first_line last_line,
    head (lines_of conversation_text) = Some first_line ∧
    last (lines_of conversation_text) = Some last_line ∧
    generate_simple_summary conversation_text max_length
    = Ret (header (length (lines_of conversation_text))
             (size (list_to_set (C := gset str)
                ((λ l, strip (replace (lit "User ") [] (Spec.before_first colon l)))
                   <$> filter (λ l, startswith (lit "User ") l)
                         (lines_of conversation_text))))
           ++ match top_words_of conversation_text with
              | [] => []
              | _ => topics_clause (top_words_of conversation_text)
              end
           ++ starts_clause (match Spec.after_first colon first_line with
                             | Some t => strip t
                             | None => first_line
                             end)
           ++ ends_clause (match Spec.after_first colon last_line with
                           | Some t => strip t
                           | None => last_line
                           end)).
Proof.
  unfold generate_simple_summary. rewrite collect_user_ids_ret.
  cbn [mbind py_bind].
  destruct (lines_of conversation_text) as [|l0 ls] eqn:Hl.
  { by apply split_not_nil in Hl. }
  destruct (last (l0 :: ls)) as [ll|] eqn:Hlast.
  2:{ by apply last_None in Hlast. }
  exists l0, ll. split; [done|]. split; [done|].
  unfold getitem, getlast. rewrite Hlast. cbn [lookup list_lookup mbind py_bind].
  rewrite !msg_of_ret. cbn [mbind py_bind]. f_equal.
  destruct (top_words_of conversation_text); by rewrite <-?(assoc_L (++)).
Qed.

End summary_facts.

(** ** The counts can be read back from the summary *)

Section header_facts.
Import PyStr BackupSummary.

Lemma Ret_inj {A} (a b : A) : Ret a = Ret b → a = b.
Proof. congruence. Qed.

Lemma pretty_N_go_no_space x s :
  ∃ ds, Stdlib.Strings.String.list_ascii_of_string (pretty_N_go x s)
        = ds ++ Stdlib.Strings.String.list_ascii_of_string s ∧
        Forall (λ c, c ≠ " "%char) ds.
Proof.
  revert s. induction (N.lt_wf_0 x) as [x _ IH]; intros s.
  destruct (decide (x = 0)%N) as [->|Hx].
  { exists []. by rewrite pretty_N_go_0. }
  rewrite pretty_N_go_step by lia.
  destruct (IH (x `div` 10)%N) with (s := String (pretty_N_char (x `mod` 10)) s)
    as (ds & -> & Hds).
  { apply N.div_lt; lia. }
  exists (ds ++ [pretty_N_char (x `mod` 10)]). split.
  - by rewrite <-(assoc_L (++)).
  - apply Forall_app. split; [done|]. repeat constructor.
    unfold pretty_N_char. by repeat case_match.
Qed.

Lemma of_nat_no_space n : Forall (λ c, c ≠ " "%char) (of_nat n).
Proof.
  unfold of_nat, pretty, pretty_nat, pretty, pretty_N.
  case_decide; [by repeat constructor|].
  destruct (pretty_N_go_no_space (N.of_nat n) "") as (ds & -> & Hds).
  by rewrite app_nil_r.
Qed.

Lemma of_nat_inj n n' : of_nat n = of_nat n' → n = n'.
Proof.
  unfold of_nat. intros H. apply (inj pretty).
  rewrite <-(Stdlib.Strings.String.string_of_list_ascii_of_string (pretty n)),
    <-(Stdlib.Strings.String.string_of_list_ascii_of_string (pretty n')).
  by rewrite H.
Qed.

(** Two runs of characters other than a space, each followed by a
    space, start two equal strings only if they are the same run. *)
Lemma no_space_prefix (ds ds' x y : str) :
  Forall (λ c, c ≠ " "%char) ds → Forall (λ c, c ≠ " "%char) ds' →
  ds ++ " "%char :: x = ds' ++ " "%char :: y → ds = ds' ∧ x = y.
Proof.
  intros Hds. revert ds'.
  induction Hds as [|c ds Hc _ IH]; intros ds' Hds'; destruct Hds' as [|c' ds' Hc' Hds'];
    simpl; intros [= ]; subst; try done.
  destruct (IH ds' Hds') as [-> ->]; done.
Qed.

(** The summary determines the two counts of its first sentence. *)
Lemma header_inj n p rest n' p' rest' :
  header n p ++ rest = header n' p' ++ rest' → n = n' ∧ p = p' ∧ rest = rest'.
Proof.
  unfold header. rewrite <-!(assoc_L (++)).
  intros H%(inj (app _)).
  apply no_space_prefix in H as [Hn H]; [|apply of_nat_no_space..].
  apply of_nat_inj in Hn as <-. split; [done|].
  apply (inj (app (lit "messages between "))) in H.
  apply no_space_prefix in H as [Hp H]; [|apply of_nat_no_space..].
  apply of_nat_inj in Hp as <-. split; [done|].
  by apply (inj (app (lit "participants. "))) in H.
Qed.

End header_facts.

(** ** The fallback summarizer: message and participant counts, snippets *)

Section summary_claims.
Import PyStr BackupSummary.

(** C1. The empty transcript: the function returns, and reports no
    participant and no key topic; but [''.split('\n')] is [['']], so the
    guard [if lines:] holds, one message is counted and both snippet
    clauses are written, around an empty snippet. *)
Theorem empty_transcript_summary (max_length : option Z) :
  generate_simple_summary [] max_length
  = Ret (lit "This conversation consists of 1 messages between 0 participants. The conversation starts with '...' and ends with '...'").
Proof. by vm_compute. Qed.

(** The guard [if lines:] never fails: a split has at least one part. *)
Lemma lines_of_not_nil conversation_text : lines_of conversation_text ≠ [].
Proof. apply split_not_nil. Qed.

(** C2, as the specification words it, fails on a transcript with a
    blank line in the middle: the three lines of ["a\n\nb"] are all
    counted, while only two of them are non-empty after trimming. *)
Lemma line_count_blank_line_counterexample :
  let t := lit "a" ++ [newline; newline] ++ lit "b" in
  t ≠ [] ∧
  Spec.line_count t = 2 ∧
  generate_simple_summary t None
  = Ret (lit "This conversation consists of 3 messages between 0 participants. The conversation starts with 'a...' and ends with 'b...'") ∧
  ¬ ∃ participants rest,
      generate_simple_summary t None
      = Ret (header (Spec.line_count t) participants ++ rest).
Proof.
  split; [done|]. split; [by vm_compute|]. split; [by vm_compute|].
  intros (participants & rest & H). vm_compute in H. discriminate H.
Qed.

(** C2, amended. For a transcript that is not empty after trimming, the
    count the summary reports (and it reports one count only) is the
    number of parts the trimmed text splits into at its newlines, blank
    parts included: one more than the number of newlines of the trimmed
    text. *)
Theorem line_count_is_split_length conversation_text max_length :
  strip conversation_text ≠ [] →
  (∃ participants rest,
     generate_simple_summary conversation_text max_length
     = Ret (header (length (split newline (strip conversation_text)))
              participants ++ rest)) ∧
  (∀ line_count participants rest,
     generate_simple_summary conversation_text max_length
     = Ret (header line_count participants ++ rest) →
     line_count = length (split newline (strip conversation_text))) ∧
  length (split newline (strip conversation_text))
  = S (length (filter (λ c, c = newline) (strip conversation_text))).
Proof.
  intros _.
  destruct (generate_simple_summary_ret conversation_text max_length)
    as (l0 & ll & _ & _ & ->).
  split; [by eexists _, _|]. split; [|apply split_length].
  intros line_count participants rest H%Ret_inj.
  by apply header_inj in H as (<- & _).
Qed.

Lemma line_count_is_split_length_witness :
  let t := lit "User a: hi" ++ [newline] ++ lit "User b: ho" ++ [newline] in
  strip t ≠ [] ∧
  ∃ participants rest,
    generate_simple_summary t (Some 100%Z)
    = Ret (header 2 participants ++ rest).
Proof.
  intros t. split; [by vm_compute|].
  destruct (line_count_is_split_length t (Some 100%Z)) as (Hret & _ & _);
    [by vm_compute|].
  exact Hret.
Defined.

(** [replace] removes every occurrence of ["User "], not the label in
    front alone: the lines ["User A: hi"] and ["User User A: yo"] give
    one identifier where removing the label gives two. *)
Lemma participant_count_replace_counterexample :
  let t := lit "User A: hi" ++ [newline] ++ lit "User User A: yo" in
  Spec.participant_count t = 2 ∧
  generate_simple_summary t None
  = Ret (lit "This conversation consists of 2 messages between 1 participants. The conversation starts with 'hi...' and ends with 'yo...'") ∧
  ¬ ∃ rest,
      generate_simple_summary t None
      = Ret (header (length (lines_of t)) (Spec.participant_count t) ++ rest).
Proof.
  split; [by vm_compute|]. split; [by vm_compute|].
  intros (rest & H). vm_compute in H. discriminate H.
Qed.

(** What the code counts as participants: the distinct strings obtained,
    for each line that starts with ["User "], from the text before the
    first colon by removing every occurrence of ["User "] and trimming;
    with no such line the count is 0, and in all cases the summary is
    returned. *)
Theorem participant_count_distinct_ids conversation_text max_length :
  ∃ (ids : list str) rest,
    generate_simple_summary conversation_text max_length
    = Ret (header (length (lines_of conversation_text)) (length ids) ++ rest) ∧
    (∀ line_count participant_count rest',
       generate_simple_summary conversation_text max_length
       = Ret (header line_count participant_count ++ rest') →
       participant_count = length ids) ∧
    NoDup ids ∧
    (∀ s, s ∈ ids ↔
          ∃ line, line ∈ lines_of conversation_text ∧
                  startswith (lit "User ") line = true ∧
                  s = strip (replace (lit "User ") []
                               (Spec.before_first colon line))) ∧
    ((∀ line, line ∈ lines_of conversation_text →
              startswith (lit "User ") line = false) → ids = []).
Proof.
  destruct (generate_simple_summary_ret conversation_text max_length)
    as (l0 & ll & _ & _ & ->).
  set (ids := (λ l, strip (replace (lit "User ") [] (Spec.before_first colon l)))
                <$> filter (λ l, startswith (lit "User ") l)
                      (lines_of conversation_text)).
  exists (elements (list_to_set (C := gset str) ids)). eexists.
  split; [reflexivity|]. split.
  { intros line_count participant_count rest' H%Ret_inj.
    by apply header_inj in H as (_ & <- & _). }
  split; [apply NoDup_elements|]. split.
  - intros s. rewrite elem_of_elements, elem_of_list_to_set.
    unfold ids. rewrite list_elem_of_fmap. split.
    + intros (line & -> & [Hp Hin]%list_elem_of_filter).
      exists line. split; [done|]. split; [by apply Is_true_true|done].
    + intros (line & Hin & Hp & ->). exists line. split; [done|].
      apply list_elem_of_filter. split; [by apply Is_true_true|done].
  - intros Hnone.
    assert (ids = []) as ->; [|by rewrite list_to_set_nil, elements_empty].
    unfold ids.
    assert (filter (λ l, startswith (lit "User ") l)
              (lines_of conversation_text) = []) as ->; [|done].
    destruct (filter _ _) as [|line rest'] eqn:Hf; [done|].
    assert (line ∈ filter (λ l, startswith (lit "User ") l)
                     (lines_of conversation_text)) as [Hp Hin]%list_elem_of_filter.
    { rewrite Hf. left. }
    by rewrite (Hnone line Hin) in Hp.
Qed.

Lemma participant_count_distinct_ids_witness :
  ∃ (ids : list str) rest,
    generate_simple_summary (lit "hello there") None
    = Ret (header (length (lines_of (lit "hello there"))) (length ids) ++ rest) ∧
    ids = [].
Proof.
  destruct (participant_count_distinct_ids (lit "hello there") None)
    as (ids & rest & Hret & _ & _ & _ & Hnone).
  exists ids, rest. split; [done|]. apply Hnone.
  intros line Hin. vm_compute in Hin.
  apply list_elem_of_singleton in Hin. by subst line.
Defined.

(** C6. For a non-empty transcript the summary ends with the two quoted
    snippets; each one is the first 30 characters, at most, of the text
    after the first colon of the first (last) line, trimmed, or of the
    whole line when it has no colon. *)
Theorem snippets_at_most_30 conversation_text max_length :
  conversation_text ≠ [] →
  ∃ first_line last_line before start_snippet end_snippet,
    head (lines_of conversation_text) = Some first_line ∧
    last (lines_of conversation_text) = Some last_line ∧
    generate_simple_summary conversation_text max_length
    = Ret (before ++ lit "The conversation starts with '" ++ start_snippet
           ++ lit "...' " ++ lit "and ends with '" ++ end_snippet
           ++ lit "...'") ∧
    start_snippet = take 30 (match Spec.after_first colon first_line with
                             | Some t => strip t
                             | None => first_line
                             end) ∧
    end_snippet = take 30 (match Spec.after_first colon last_line with
                           | Some t => strip t
                           | None => last_line
                           end) ∧
    length start_snippet ≤ 30 ∧ length end_snippet ≤ 30.
Proof.
  intros _.
  destruct (generate_simple_summary_ret conversation_text max_length)
    as (l0 & ll & Hhd & Hlast & ->).
  exists l0, ll. eexists _, _, _. split; [done|]. split; [done|].
  split; [|split; [reflexivity|split; [reflexivity|]]].
  - unfold starts_clause, ends_clause. f_equal.
    rewrite !(assoc_L (++)). reflexivity.
  - rewrite !length_take. lia.
Qed.

Lemma snippets_at_most_30_witness :
  lit "User a: a message that is much longer than thirty characters" ≠ [] ∧
  ∃ before start_snippet end_snippet,
    generate_simple_summary
      (lit "User a: a message that is much longer than thirty characters")
      None
    = Ret (before ++ lit "The conversation starts with '" ++ start_snippet
           ++ lit "...' " ++ lit "and ends with '" ++ end_snippet
           ++ lit "...'") ∧
    length start_snippet ≤ 30 ∧ length end_snippet ≤ 30.
Proof.
  split; [by vm_compute|].
  destruct (snippets_at_most_30
              (lit "User a: a message that is much longer than thirty characters")
              None)
    as (l0 & ll & before & s1 & s2 & _ & _ & Hret & _ & _ & Hlen);
    [by vm_compute|].
  by exists before, s1, s2.
Defined.

(** C7. The length budget is accepted and ignored: the function returns
    a summary, and the same one whatever [max_length] is. *)
Theorem max_length_ignored conversation_text :
  (∃ summary, ∀ max_length,
     generate_simple_summary conversation_text max_length = Ret summary) ∧
  ∀ m1 m2,
    generate_simple_summary conversation_text m1
    = generate_simple_summary conversation_text m2.
Proof.
  split; [|reflexivity].
  destruct (generate_simple_summary_ret conversation_text None)
    as (l0 & ll & _ & _ & Hret).
  eexists. intros max_length. exact Hret.
Qed.

End summary_claims.

(** ** The stable sort *)

Section stable_sort_facts.
Context {A : Type} (before : A → A → bool).

Lemma insert_sorted_perm x l : insert_sorted before x l ≡ₚ x :: l.
Proof.
  induction l as [|y l IH]; simpl; [done|].
  destruct (before y x); [|done]. rewrite IH. apply Permutation_swap.
Qed.

Lemma stable_sort_perm l : stable_sort before l ≡ₚ l.
Proof.
  induction l as [|x l IH]; simpl; [done|].
  by rewrite insert_sorted_perm, IH.
Qed.

(** [before] compares keys of a strict total order: it is asymmetric, and
    an element that is not before [b] is before whatever [b] is before. *)
Hypothesis before_asym : ∀ a b, before a b = true → before b a = false.
Hypothesis before_neg_trans :
  ∀ a b c, before a c = true → before a b = true ∨ before b c = true.

(** [earlier] is the order of the elements in the input list. *)
Variable earlier : relation A.

Lemma insert_sorted_ranked x l :
  Forall (earlier x) l →
  StronglySorted (ranked_before before earlier) l →
  StronglySorted (ranked_before before earlier) (insert_sorted before x l).
Proof.
  induction l as [|y l IH]; intros Hx Hl; simpl.
  { repeat constructor. }
  apply Forall_cons in Hx as [Hxy Hxl].
  apply StronglySorted_cons in Hl as [Hyl Hl].
  destruct (before y x) eqn:Hyx.
  - apply StronglySorted_cons. split; [|by apply IH].
    apply Forall_forall. intros z Hz.
    rewrite insert_sorted_perm in Hz. apply elem_of_cons in Hz as [->|Hz].
    + by left.
    + by eapply Forall_forall in Hyl.
  - apply StronglySorted_cons. split; [|by apply StronglySorted_cons].
    apply Forall_cons. split; [by right|].
    apply Forall_forall. intros z Hz. right.
    split; [|by eapply Forall_forall in Hxl].
    destruct (before z x) eqn:Hzx; [|done].
    destruct (before_neg_trans z y x Hzx) as [Hzy|?]; [|congruence].
    eapply Forall_forall in Hyl; [|done].
    destruct Hyl as [Hyz|[? _]]; [|congruence].
    apply before_asym in Hyz. congruence.
Qed.

Lemma stable_sort_ranked l :
  StronglySorted earlier l →
  StronglySorted (ranked_before before earlier) (stable_sort before l).
Proof.
  induction 1 as [|x l Hl IH Hx]; simpl; [constructor|].
  apply insert_sorted_ranked; [|done].
  apply Forall_forall. intros z Hz. rewrite stable_sort_perm in Hz.
  by eapply Forall_forall in Hx.
Qed.

End stable_sort_facts.

Lemma StronglySorted_any {A} (l : list A) : StronglySorted (λ _ _, True) l.
Proof. induction l; constructor; [done|]. by apply Forall_forall. Qed.

(** A list sorted by [R] is sorted by any relation that agrees with [R]
    on its elements. *)
Lemma StronglySorted_on_elements {A} (R R' : relation A) l :
  (∀ a b, a ∈ l → b ∈ l → R a b → R' a b) →
  StronglySorted R l → StronglySorted R' l.
Proof.
  intros HR Hl. induction Hl as [|x l Hl IH Hx]; [constructor|].
  constructor.
  - apply IH. intros a b Ha Hb. apply HR; by right.
  - apply Forall_forall. intros z Hz. apply HR; [left|by right|].
    by eapply Forall_forall in Hx.
Qed.

(** ** The frequency table *)

Section word_freq_facts.
Import PyStr BackupSummary.

Lemma dict_get_absent (d : list (str * nat)) w dflt :
  w ∉ d.*1 → dict_get d w dflt = dflt.
Proof.
  induction d as [|[k v] d IH]; simpl; [done|].
  rewrite not_elem_of_cons. intros [Hk Hd].
  case_bool_decide; [congruence|by apply IH].
Qed.

Lemma dict_get_elem (d : list (str * nat)) w c dflt :
  NoDup d.*1 → (w, c) ∈ d → dict_get d w dflt = c.
Proof.
  induction d as [|[k v] d IH]; simpl; [by intros _ ?%elem_of_nil|].
  rewrite NoDup_cons, elem_of_cons. intros [Hk Hd] [Heq|Hin].
  - simplify_eq. by rewrite bool_decide_eq_true_2.
  - case_bool_decide as Hkw; [|by apply IH].
    subst k. destruct Hk. apply list_elem_of_fmap. by exists (w, c).
Qed.

Lemma dict_get_present (d : list (str * nat)) w dflt :
  w ∈ d.*1 → (w, dict_get d w dflt) ∈ d.
Proof.
  induction d as [|[k v] d IH]; simpl; [by intros ?%elem_of_nil|].
  rewrite elem_of_cons. intros Hin.
  case_bool_decide as Hkw; [subst; left|].
  right. apply IH. by destruct Hin.
Qed.

Lemma dict_set_present (d : list (str * nat)) w v :
  w ∈ d.*1 → (dict_set d w v).*1 = d.*1.
Proof.
  induction d as [|[k v'] d IH]; simpl; [by intros ?%elem_of_nil|].
  rewrite elem_of_cons. intros Hin.
  case_bool_decide as Hkw; [done|]. simpl. f_equal. apply IH.
  by destruct Hin.
Qed.

Lemma dict_set_absent (d : list (str * nat)) w v :
  w ∉ d.*1 → dict_set d w v = d ++ [(w, v)].
Proof.
  induction d as [|[k v'] d IH]; simpl; [done|].
  rewrite not_elem_of_cons. intros [Hk Hd].
  case_bool_decide; [congruence|]. by rewrite IH.
Qed.

Lemma dict_get_set (d : list (str * nat)) w v w' dflt :
  dict_get (dict_set d w v) w' dflt
  = if bool_decide (w = w') then v else dict_get d w' dflt.
Proof.
  induction d as [|[k v'] d IH]; simpl.
  - done.
  - destruct (decide (k = w)) as [->|Hkw].
    + rewrite (bool_decide_eq_true_2 (w = w)) by done. simpl.
      by case_bool_decide.
    + rewrite (bool_decide_eq_false_2 (k = w)) by done. simpl.
      rewrite IH. repeat case_bool_decide; congruence.
Qed.

Lemma occurrences_snoc w ws x :
  Spec.occurrences w (ws ++ [x])
  = Spec.occurrences w ws + (if bool_decide (x = w) then 1 else 0).
Proof.
  unfold Spec.occurrences. rewrite filter_app, length_app, filter_cons, filter_nil.
  case_bool_decide; case_decide; done.
Qed.

Lemma occurrences_absent w ws : w ∉ ws → Spec.occurrences w ws = 0.
Proof.
  unfold Spec.occurrences. induction ws as [|x ws IH]; [done|].
  rewrite not_elem_of_cons, filter_cons. intros [Hx Hw].
  case_decide; [congruence|by apply IH].
Qed.

Lemma first_index_app_l w ws ws' :
  w ∈ ws → Spec.first_index w (ws ++ ws') = Spec.first_index w ws.
Proof.
  induction ws as [|x ws IH]; simpl; [by intros ?%elem_of_nil|].
  rewrite elem_of_cons. intros Hin.
  case_bool_decide as Hx; [done|]. f_equal. apply IH. by destruct Hin.
Qed.

Lemma first_index_lt w ws : w ∈ ws → Spec.first_index w ws < length ws.
Proof.
  induction ws as [|x ws IH]; simpl; [by intros ?%elem_of_nil|].
  rewrite elem_of_cons. intros Hin.
  case_bool_decide as Hx; [lia|].
  assert (w ∈ ws) as ?%IH by (by destruct Hin). lia.
Qed.

Lemma first_index_snoc_absent w ws :
  w ∉ ws → Spec.first_index w (ws ++ [w]) = length ws.
Proof.
  induction ws as [|x ws IH]; simpl.
  - intros _. by rewrite bool_decide_eq_true_2.
  - rewrite not_elem_of_cons. intros [Hx Hw].
    rewrite bool_decide_eq_false_2 by done. by rewrite IH.
Qed.

(** What the counting loop has built after the words [ws]: the keys are
    the long words of [ws], each once, in the order of their first
    occurrence, and each is mapped to its number of occurrences. *)
Lemma count_words_invariant (ws : list str) :
  NoDup (count_words ws).*1 ∧
  (∀ w, w ∈ (count_words ws).*1 ↔ w ∈ ws ∧ 4 < length w) ∧
  (∀ w, 4 < length w →
        dict_get (count_words ws) w 0 = Spec.occurrences w ws) ∧
  StronglySorted (λ a b, Spec.first_index a ws < Spec.first_index b ws)
    (count_words ws).*1.
Proof.
  induction ws as [|x ws (Hnd & Hkeys & Hget & Hord)] using rev_ind.
  { split; [constructor|]. split; [|split; [done|constructor]].
    intros w. split; [by intros ?%elem_of_nil|by intros [?%elem_of_nil _]]. }
  assert (StronglySorted
            (λ a b, Spec.first_index a (ws ++ [x]) < Spec.first_index b (ws ++ [x]))
            (count_words ws).*1) as Hord'.
  { eapply StronglySorted_on_elements; [|exact Hord].
    intros a b [Ha _]%Hkeys [Hb _]%Hkeys.
    by rewrite !first_index_app_l. }
  unfold count_words in *. rewrite foldl_snoc.
  set (d := foldl _ [] ws) in *.
  case_bool_decide as Hlong; last first.
  { split; [done|]. split; [|split; [|done]].
    - intros w. rewrite Hkeys, elem_of_app, list_elem_of_singleton.
      split; [intros [? ?]; auto|]. intros [[?| ->] ?]; [done|lia].
    - intros w Hw. rewrite occurrences_snoc, Hget by done.
      rewrite bool_decide_eq_false_2; [lia|]. intros ->. lia. }
  assert (∀ w, 4 < length w →
    dict_get (dict_set d x (dict_get d x 0 + 1)) w 0
    = Spec.occurrences w (ws ++ [x])) as Hget'.
  { intros w Hw. rewrite dict_get_set, occurrences_snoc.
    case_bool_decide; [subst w; by rewrite Hget|]. rewrite Hget by done. lia. }
  destruct (decide (x ∈ d.*1)) as [Hin|Hnin].
  - rewrite dict_set_present by done.
    split; [done|]. split; [|done].
    intros w. rewrite Hkeys, elem_of_app, list_elem_of_singleton.
    split; [intros [? ?]; auto|]. intros [[?| ->] ?]; [done|].
    by apply Hkeys.
  - rewrite dict_set_absent by done. rewrite fmap_app. simpl.
    assert (x ∉ ws) as Hxws by (intros ?; apply Hnin, Hkeys; done).
    split; [|split; [|split]].
    + apply NoDup_app. split; [done|]. split; [|apply NoDup_singleton].
      intros w Hw ->%list_elem_of_singleton. done.
    + intros w. rewrite !elem_of_app, list_elem_of_singleton, Hkeys.
      split; [intros [[? ?]| ->]; auto|]. intros [[?| ->] ?]; auto.
    + intros w Hw. rewrite <-Hget' by done.
      by rewrite dict_set_absent.
    + apply StronglySorted_app_2; [|done|repeat constructor].
      intros a b [Ha _]%Hkeys ->%list_elem_of_singleton.
      rewrite first_index_app_l, first_index_snoc_absent by done.
      by apply first_index_lt.
Qed.

End word_freq_facts.

(** ** Key topics *)

Section key_topics.
Import PyStr BackupSummary.

Lemma StronglySorted_fmap_inv {A B} (f : A → B) (R : relation B) l :
  StronglySorted R (f <$> l) → StronglySorted (λ a b, R (f a) (f b)) l.
Proof.
  induction l as [|x l IH]; csimpl; [constructor|].
  rewrite !StronglySorted_cons, Forall_fmap. intros [? ?]. auto.
Qed.

(** The entries of the frequency table. *)
Lemma word_freq_elem conversation_text w c :
  (w, c) ∈ word_freq_of conversation_text ↔
  w ∈ words_of conversation_text ∧ 4 < length w ∧
  c = Spec.occurrences w (words_of conversation_text).
Proof.
  unfold word_freq_of.
  destruct (count_words_invariant (words_of conversation_text))
    as (Hnd & Hkeys & Hget & _).
  split.
  - intros Hin.
    assert (w ∈ (count_words (words_of conversation_text)).*1) as Hk.
    { apply list_elem_of_fmap. by exists (w, c). }
    apply Hkeys in Hk as [Hw Hlong]. split; [done|]. split; [done|].
    rewrite <-Hget by done. symmetry. by apply dict_get_elem.
  - intros (Hw & Hlong & ->). rewrite <-Hget by done.
    apply dict_get_present, Hkeys. done.
Qed.

(** The ranking: by falling frequency and, at equal frequency, by first
    occurrence in the text. *)
Lemma ranked_word_freq_sorted conversation_text :
  StronglySorted
    (λ a b, b.2 < a.2 ∨
            (b.2 = a.2 ∧
             Spec.first_index a.1 (words_of conversation_text)
             < Spec.first_index b.1 (words_of conversation_text)))
    (ranked (word_freq_of conversation_text)).
Proof.
  unfold ranked, word_freq_of.
  destruct (count_words_invariant (words_of conversation_text))
    as (_ & _ & _ & Hord).
  apply StronglySorted_fmap_inv in Hord.
  eapply (stable_sort_ranked (λ y x, bool_decide (x.2 < y.2))) in Hord.
  - eapply StronglySorted_on_elements; [|exact Hord].
    intros a b _ _ [Hlt|[Hge ?]].
    + left. by apply bool_decide_eq_true in Hlt.
    + apply bool_decide_eq_false in Hge.
      destruct (decide (b.2 < a.2)); [by left|right]. split; [lia|done].
  - intros a b Hab%bool_decide_eq_true. apply bool_decide_eq_false. lia.
  - intros a b c Hac%bool_decide_eq_true.
    destruct (decide (b.2 < a.2)); [left|right]; apply bool_decide_eq_true; lia.
Qed.

Lemma ranked_elem conversation_text w c :
  (w, c) ∈ ranked (word_freq_of conversation_text) ↔
  w ∈ words_of conversation_text ∧ 4 < length w ∧
  c = Spec.occurrences w (words_of conversation_text).
Proof. unfold ranked. rewrite stable_sort_perm. apply word_freq_elem. Qed.

(** The same ranking, read on the tokens that are kept. *)
Lemma top_words_sorted conversation_text :
  StronglySorted
    (λ w w',
       Spec.occurrences w' (words_of conversation_text)
       < Spec.occurrences w (words_of conversation_text) ∨
       (Spec.occurrences w' (words_of conversation_text)
        = Spec.occurrences w (words_of conversation_text) ∧
        Spec.first_index w (words_of conversation_text)
        < Spec.first_index w' (words_of conversation_text)))
    (top_words_of conversation_text).
Proof.
  unfold top_words_of.
  pose proof (ranked_word_freq_sorted conversation_text) as Hs.
  rewrite <-(take_drop 5) in Hs. apply StronglySorted_app_1_l in Hs.
  eapply StronglySorted_fmap; [|eapply StronglySorted_on_elements; [|exact Hs]].
  { intros x y H. exact H. }
  intros [w c] [w' c'] Hin Hin' H; simpl in *.
  apply elem_of_take in Hin as (i & ?%list_elem_of_lookup_2 & _).
  apply elem_of_take in Hin' as (j & ?%list_elem_of_lookup_2 & _).
  assert (c = Spec.occurrences w (words_of conversation_text)) as <-
    by (by eapply ranked_elem).
  assert (c' = Spec.occurrences w' (words_of conversation_text)) as <-
    by (by eapply ranked_elem).
  done.
Qed.

(** A long token that is not kept ranks after every token that is. *)
Lemma top_words_cut conversation_text w w' :
  w ∈ top_words_of conversation_text →
  w' ∈ words_of conversation_text → 4 < length w' →
  w' ∉ top_words_of conversation_text →
  Spec.occurrences w' (words_of conversation_text)
  < Spec.occurrences w (words_of conversation_text) ∨
  (Spec.occurrences w' (words_of conversation_text)
   = Spec.occurrences w (words_of conversation_text) ∧
   Spec.first_index w (words_of conversation_text)
   < Spec.first_index w' (words_of conversation_text)).
Proof.
  unfold top_words_of. intros Hw Hw' Hlong Hnot.
  pose proof (ranked_word_freq_sorted conversation_text) as Hs.
  rewrite <-(take_drop 5) in Hs.
  apply list_elem_of_fmap in Hw as ([w0 c] & -> & Hin). simpl.
  assert ((w', Spec.occurrences w' (words_of conversation_text))
          ∈ ranked (word_freq_of conversation_text)) as Hin'.
  { by apply ranked_elem. }
  rewrite <-(take_drop 5), elem_of_app in Hin'.
  destruct Hin' as [Hin'|Hin'].
  { destruct Hnot. apply list_elem_of_fmap. by eexists (_, _). }
  pose proof (StronglySorted_app_1_elem_of _ _ _ _ _ Hs Hin Hin') as H.
  simpl in H.
  assert (c = Spec.occurrences w0 (words_of conversation_text)) as <-; [|done].
  apply elem_of_take in Hin as (i & ?%list_elem_of_lookup_2 & _).
  by eapply ranked_elem.
Qed.

Lemma top_words_elem conversation_text w :
  w ∈ top_words_of conversation_text →
  w ∈ words_of conversation_text ∧ 4 < length w.
Proof.
  unfold top_words_of. intros ([w0 c] & -> & Hin)%list_elem_of_fmap.
  apply elem_of_take in Hin as (i & ?%list_elem_of_lookup_2 & _).
  assert (w0 ∈ words_of conversation_text ∧ 4 < length w0 ∧
          c = Spec.occurrences w0 (words_of conversation_text)) as (? & ? & _)
    by (by apply ranked_elem).
  done.
Qed.

End key_topics.

Section key_topics_claims.
Import PyStr BackupSummary.

(** C4. The frequency table holds exactly the whitespace-delimited
    tokens of the lower-cased text that are longer than 4 characters,
    each with its number of occurrences; the key topics are at most
    five of its keys, in order of falling frequency, and no token left
    out is more frequent than one that is kept. So every key topic is
    longer than 4 characters. On the two-line transcript of the
    specification the table is [hello: 2, world: 2] and both are key
    topics. *)
Theorem key_topics_long_and_most_frequent conversation_text :
  (∀ w c, (w, c) ∈ word_freq_of conversation_text ↔
          w ∈ split_ws (lower conversation_text) ∧ 4 < length w ∧
          c = Spec.occurrences w (split_ws (lower conversation_text))) ∧
  NoDup (word_freq_of conversation_text).*1 ∧
  length (top_words_of conversation_text)
  = 5 `min` length (word_freq_of conversation_text) ∧
  (∀ w, w ∈ top_words_of conversation_text →
        4 < length w ∧ w ∈ (word_freq_of conversation_text).*1) ∧
  StronglySorted
    (λ w w', Spec.occurrences w' (split_ws (lower conversation_text))
             ≤ Spec.occurrences w (split_ws (lower conversation_text)))
    (top_words_of conversation_text) ∧
  (∀ w w', w ∈ top_words_of conversation_text →
           w' ∈ (word_freq_of conversation_text).*1 →
           w' ∉ top_words_of conversation_text →
           Spec.occurrences w' (split_ws (lower conversation_text))
           ≤ Spec.occurrences w (split_ws (lower conversation_text))) ∧
  word_freq_of (lit "User a: hello world" ++ [newline] ++ lit "User b: world hello")
  = [(lit "hello", 2); (lit "world", 2)] ∧
  top_words_of (lit "User a: hello world" ++ [newline] ++ lit "User b: world hello")
  = [lit "hello"; lit "world"].
Proof.
  change (split_ws (lower conversation_text))
    with (words_of conversation_text).
  destruct (count_words_invariant (words_of conversation_text))
    as (Hnd & Hkeys & _ & _).
  split; [apply word_freq_elem|]. split; [done|]. split.
  { unfold top_words_of, ranked.
    rewrite length_fmap, length_take.
    by rewrite (Permutation_length (stable_sort_perm _ _)). }
  split.
  { intros w [Hw Hlong]%top_words_elem. split; [done|]. by apply Hkeys. }
  split.
  { eapply StronglySorted_on_elements; [|apply top_words_sorted].
    intros a b _ _ [?|[? _]]; lia. }
  split; [|split; by vm_compute].
  intros w w' Hw [Hw' Hlong]%Hkeys Hnot.
  destruct (top_words_cut conversation_text w w') as [?|[? _]]; auto; lia.
Qed.

Lemma key_topics_long_and_most_frequent_witness :
  4 < length (lit "hello") ∧
  lit "hello"
  ∈ (word_freq_of (lit "User a: hello world" ++ [newline]
                   ++ lit "User b: world hello")).*1.
Proof.
  apply (key_topics_long_and_most_frequent
           (lit "User a: hello world" ++ [newline] ++ lit "User b: world hello")).
  vm_compute. left.
Defined.

(** C9. The choice of the key topics is deterministic. The topics are
    listed by falling frequency and, at equal frequency, in the order of
    their first occurrence among the tokens of the lower-cased text;
    every long token that is left out comes after every topic in that
    same order. The summary therefore depends on the text alone. *)
Theorem key_topics_ties_by_first_occurrence conversation_text :
  StronglySorted
    (λ w w',
       Spec.occurrences w' (split_ws (lower conversation_text))
       < Spec.occurrences w (split_ws (lower conversation_text)) ∨
       (Spec.occurrences w' (split_ws (lower conversation_text))
        = Spec.occurrences w (split_ws (lower conversation_text)) ∧
        Spec.first_index w (split_ws (lower conversation_text))
        < Spec.first_index w' (split_ws (lower conversation_text))))
    (top_words_of conversation_text) ∧
  (∀ w w', w ∈ top_words_of conversation_text →
           w' ∈ split_ws (lower conversation_text) → 4 < length w' →
           w' ∉ top_words_of conversation_text →
           Spec.occurrences w' (split_ws (lower conversation_text))
           < Spec.occurrences w (split_ws (lower conversation_text)) ∨
           (Spec.occurrences w' (split_ws (lower conversation_text))
            = Spec.occurrences w (split_ws (lower conversation_text)) ∧
            Spec.first_index w (split_ws (lower conversation_text))
            < Spec.first_index w' (split_ws (lower conversation_text)))) ∧
  ∃ summary, ∀ max_length,
    generate_simple_summary conversation_text max_length = Ret summary.
Proof.
  split; [apply top_words_sorted|]. split; [apply top_words_cut|].
  destruct (generate_simple_summary_ret conversation_text None)
    as (l0 & ll & _ & _ & Hret).
  eexists. intros max_length. exact Hret.
Qed.

Lemma key_topics_ties_by_first_occurrence_witness :
  let t := lit "alpha2 bravo charlie delta echo2 foxtrot" in
  Spec.occurrences (lit "foxtrot") (split_ws (lower t))
  < Spec.occurrences (lit "alpha2") (split_ws (lower t)) ∨
  (Spec.occurrences (lit "foxtrot") (split_ws (lower t))
   = Spec.occurrences (lit "alpha2") (split_ws (lower t)) ∧
   Spec.first_index (lit "alpha2") (split_ws (lower t))
   < Spec.first_index (lit "foxtrot") (split_ws (lower t))).
Proof.
  apply (key_topics_ties_by_first_occurrence
           (lit "alpha2 bravo charlie delta echo2 foxtrot")).
  - vm_compute. left.
  - vm_compute. do 5 right. left.
  - vm_compute. lia.
  - apply (bool_decide_unpack _). by vm_compute.
Defined.

End key_topics_claims.

(** ** The Gemini adapter *)

Section gemini_claims.
Import PyStr BackupSummary Main.

Lemma generate_simple_summary_returns conversation_text max_length :
  ∃ summary,
    generate_simple_summary conversation_text max_length = Ret summary.
Proof.
  destruct (generate_simple_summary_ret conversation_text max_length)
    as (l0 & ll & _ & _ & ->). by eexists.
Qed.

(** C3. The adapter always returns a string and raises nothing. Without
    an API key it returns the configuration-error text. With a key, any
    exception of the request (of the call itself, of reading the
    response, of indexing its candidates) and any response with neither
    a text nor a candidate give exactly what the fallback summarizer
    returns for the same arguments. *)
Theorem get_gemini_summary_never_raises
    (GEMINI_API_KEY : option str) (generate_content : str → py response)
    (conversation_text : str) (max_length : option Z) :
  (∃ summary,
     get_gemini_summary GEMINI_API_KEY generate_content
       conversation_text max_length = Ret summary) ∧
  (truthy GEMINI_API_KEY = false →
   get_gemini_summary GEMINI_API_KEY generate_content
     conversation_text max_length = Ret config_error) ∧
  (truthy GEMINI_API_KEY = true →
   ∀ e,
     gemini_request generate_content conversation_text max_length = Raise e →
     get_gemini_summary GEMINI_API_KEY generate_content
       conversation_text max_length
     = generate_simple_summary conversation_text max_length) ∧
  (∀ e,
     generate_content (prompt_of conversation_text max_length) = Raise e →
     gemini_request generate_content conversation_text max_length = Raise e) ∧
  (truthy GEMINI_API_KEY = true →
   ∀ r,
     generate_content (prompt_of conversation_text max_length) = Ret r →
     text r = Missing →
     candidates r = Missing ∨ candidates r = Has [] →
     get_gemini_summary GEMINI_API_KEY generate_content
       conversation_text max_length
     = generate_simple_summary conversation_text max_length).
Proof.
  destruct (generate_simple_summary_returns conversation_text max_length)
    as [fallback Hfb].
  unfold get_gemini_summary.
  destruct (truthy GEMINI_API_KEY); simpl.
  - split; [|split; [done|split; [|split]]].
    + destruct (gemini_request _ _ _) as [s|e]; simpl; [by eexists|].
      rewrite Hfb. by eexists.
    + intros _ e ->. simpl. by rewrite Hfb.
    + intros e He. unfold gemini_request. by rewrite He.
    + intros _ r Hr Ht Hc. unfold gemini_request. rewrite Hr. simpl.
      rewrite Ht. simpl. destruct Hc as [-> | ->]; simpl; by rewrite Hfb.
  - split; [by eexists|]. split; [done|]. split; [done|]. split; [|done].
    intros e He. unfold gemini_request. by rewrite He.
Qed.

Lemma get_gemini_summary_never_raises_witness :
  get_gemini_summary (Some (lit "key"))
    (λ _, Raise (Exn (lit "DeadlineExceeded") (lit "504 Deadline Exceeded")))
    (lit "User a: hi") (Some 100%Z)
  = generate_simple_summary (lit "User a: hi") (Some 100%Z).
Proof.
  apply (get_gemini_summary_never_raises (Some (lit "key"))
           (λ _, Raise (Exn (lit "DeadlineExceeded") (lit "504 Deadline Exceeded")))
           (lit "User a: hi") (Some 100%Z)
           ) with (e := Exn (lit "DeadlineExceeded") (lit "504 Deadline Exceeded")).
  - reflexivity.
  - reflexivity.
Defined.

End gemini_claims.

(** ** The order of timestamps *)

Section timestamp_order.
Import PyStr Main.

Lemma str_ltb_asym a b : str_ltb a b = true → str_ltb b a = false.
Proof.
  revert b. induction a as [|x a IH]; intros [|y b]; simpl; try done.
  rewrite orb_true_iff, andb_true_iff, orb_false_iff, andb_false_iff.
  rewrite !N.ltb_lt, !N.ltb_ge, N.eqb_eq, N.eqb_neq.
  intros [Hlt|[Heq Hab]].
  - split; [lia|]. left. lia.
  - split; [lia|]. right. by apply IH.
Qed.

Lemma str_ltb_neg_trans a b c :
  str_ltb a c = true → str_ltb a b = true ∨ str_ltb b c = true.
Proof.
  revert b c. induction a as [|x a IH]; intros [|y b] [|z c]; simpl; auto.
  rewrite !orb_true_iff, !andb_true_iff, !N.ltb_lt, !N.eqb_eq.
  intros Hac.
  destruct (N.lt_trichotomy (code x) (code y)) as [?|[Hxy|?]]; [by left; left| |].
  - destruct (N.lt_trichotomy (code y) (code z)) as [?|[Hyz|?]];
      [by right; left| |].
    + destruct Hac as [?|[_ Hac]]; [lia|].
      destruct (IH b c Hac); [left|right]; by right.
    + destruct Hac as [?|[? _]]; lia.
  - right. left. destruct Hac as [?|[? _]]; lia.
Qed.

Lemma ts_ltb_asym a b : ts_ltb a b = true → ts_ltb b a = false.
Proof. destruct a, b; simpl; try done. apply str_ltb_asym. Qed.

Lemma ts_ltb_neg_trans a b c :
  ts_ltb a c = true → ts_ltb a b = true ∨ ts_ltb b c = true.
Proof. destruct a, b, c; simpl; auto. apply str_ltb_neg_trans. Qed.

Lemma sort_timestamp_perm direction l : sort_timestamp direction l ≡ₚ l.
Proof. unfold sort_timestamp. case_match; apply stable_sort_perm. Qed.

(** Ascending: no document is followed by one with a smaller timestamp. *)
Lemma sort_timestamp_ascending l :
  StronglySorted (λ a b, ts_ltb (d_timestamp b) (d_timestamp a) = false)
    (sort_timestamp 1 l).
Proof.
  unfold sort_timestamp. simpl.
  eapply StronglySorted_on_elements;
    [|apply (stable_sort_ranked _) with (earlier := λ _ _, True)].
  - intros a b _ _ [Hab|[Hba _]]; [|done]. by apply ts_ltb_asym.
  - intros a b. apply ts_ltb_asym.
  - intros a b c. apply ts_ltb_neg_trans.
  - apply StronglySorted_any.
Qed.

(** Descending: no document is followed by one with a greater timestamp. *)
Lemma sort_timestamp_descending l :
  StronglySorted (λ a b, ts_ltb (d_timestamp a) (d_timestamp b) = false)
    (sort_timestamp (-1) l).
Proof.
  unfold sort_timestamp. simpl.
  eapply StronglySorted_on_elements;
    [|apply (stable_sort_ranked _) with (earlier := λ _ _, True)].
  - intros a b _ _ [Hab|[Hba _]]; [|done]. by apply ts_ltb_asym.
  - intros a b. apply ts_ltb_asym.
  - intros a b c Hac.
    destruct (ts_ltb_neg_trans _ (d_timestamp b) _ Hac); auto.
  - apply StronglySorted_any.
Qed.

Lemma StronglySorted_take {A} (R : relation A) n l :
  StronglySorted R l → StronglySorted R (take n l).
Proof.
  intros H. rewrite <-(take_drop n l) in H. by apply StronglySorted_app_1_l in H.
Qed.

Lemma StronglySorted_drop {A} (R : relation A) n l :
  StronglySorted R l → StronglySorted R (drop n l).
Proof.
  intros H. rewrite <-(take_drop n l) in H. by apply StronglySorted_app_1_r in H.
Qed.

Lemma StronglySorted_Forall2 {A B} (R : relation A) (R' : relation B)
    (P : A → B → Prop) l k :
  (∀ a a' b b', P a b → P a' b' → R a a' → R' b b') →
  Forall2 P l k → StronglySorted R l → StronglySorted R' k.
Proof.
  intros HR HP. induction HP as [|a b l k Hab HP IH]; [constructor|].
  rewrite !StronglySorted_cons. intros [Ha Hl]. split; [|by apply IH].
  clear IH Hl. induction HP as [|a' b' l k Hab' HP IH]; [constructor|].
  apply Forall_cons in Ha as [? ?]. constructor; eauto.
Qed.

Lemma to_responses_from l acc rs :
  py_for l (λ result chat, r ← to_response chat; Ret (result ++ [r])) acc
  = Ret rs →
  ∃ rs', rs = acc ++ rs' ∧ Forall2 response_of l rs'.
Proof.
  revert acc. induction l as [|d l IH]; intros acc; simpl.
  - intros [= <-]. exists []. by rewrite app_nil_r.
  - destruct (to_response d) as [r|e] eqn:Hd; simpl; [|done].
    intros (rs' & -> & H)%IH. exists (r :: rs').
    split; [by rewrite <-(assoc_L (++))|]. by constructor.
Qed.

Lemma to_responses_Forall2 l rs :
  to_responses l = Ret rs → Forall2 response_of l rs.
Proof. intros (rs' & -> & H)%to_responses_from. done. Qed.

Lemma to_responses_returns_from l acc :
  Forall (λ d, is_Some (d_timestamp d)) l →
  ∃ rs,
    py_for l (λ result chat, r ← to_response chat; Ret (result ++ [r])) acc
    = Ret rs.
Proof.
  intros H. revert acc.
  induction H as [|d l [ts Hts] _ IH]; intros acc; cbn [py_for].
  - by eexists.
  - unfold to_response. rewrite Hts. cbn [mbind py_bind]. apply IH.
Qed.

End timestamp_order.

(** ** Retrieval: the order of the messages *)

Section retrieval_claims.
Import PyStr Main.

Lemma response_of_inv d r :
  response_of d r →
  d_timestamp d = Some (r_timestamp r) ∧ r_user_id r = d_user_id d ∧
  r_message r = d_message d ∧ r_id r = d_id d ∧
  r_conversation_id r = Some (d_conversation_id d).
Proof.
  unfold response_of, to_response.
  destruct (d_timestamp d); [|done]. by intros [= <-].
Qed.

Lemma responses_sorted (R : relation (option str)) (R' : relation str) l rs :
  (∀ x y, R (Some x) (Some y) → R' x y) →
  Forall2 response_of l rs →
  StronglySorted (λ a b, R (d_timestamp a) (d_timestamp b)) l →
  StronglySorted (λ a b, R' (r_timestamp a) (r_timestamp b)) rs.
Proof.
  intros HR. apply StronglySorted_Forall2.
  intros a a' b b' (Ha & _)%response_of_inv (Ha' & _)%response_of_inv.
  rewrite Ha, Ha'. apply HR.
Qed.

(** C10. The history of a user is one page of the messages that match
    the query, cut out of their list in falling order of timestamp:
    in the response no message is followed by a newer one. A
    conversation is retrieved the other way round, in rising order of
    timestamp: no message is followed by an older one. *)
Theorem user_chats_newest_first (text_search : str → str → bool)
    (user : str) (page limit : Z) (start_date end_date keyword : option str)
    (st : db) :
  let matching :=
    filter (λ d, user_query text_search user start_date end_date keyword d)
      (chats st) in
  let page_docs :=
    take (Z.to_nat limit)
      (drop (Z.to_nat ((page - 1) * limit)) (sort_timestamp (-1) matching)) in
  ((1 ≤ page)%Z → (1 ≤ limit ≤ 100)%Z →
   Forall (λ d, is_Some (d_timestamp d)) page_docs →
   ∃ r, get_user_chats None None text_search user page limit
          start_date end_date keyword st = Response 200 r) ∧
  (∀ fault_find fault_count r,
     get_user_chats fault_find fault_count text_search user page limit
       start_date end_date keyword st = Response 200 r →
     sort_timestamp (-1) matching ≡ₚ matching ∧
     StronglySorted (λ a b, ts_ltb (d_timestamp a) (d_timestamp b) = false)
       (sort_timestamp (-1) matching) ∧
     Forall2 response_of page_docs (p_chats r) ∧
     StronglySorted (λ a b, str_ltb (r_timestamp a) (r_timestamp b) = false)
       (p_chats r) ∧
     Forall (λ c, r_user_id c = user) (p_chats r) ∧
     p_total r = length matching ∧ p_page r = page ∧ p_limit r = limit) ∧
  (∀ fault conversation result,
     retrieve_chat fault conversation st = Response 200 result →
     Forall2 response_of
       (take 100 (sort_timestamp 1
          (filter (λ d, matches_conversation conversation d) (chats st))))
       result ∧
     StronglySorted (λ a b, str_ltb (r_timestamp b) (r_timestamp a) = false)
       result).
Proof.
  intros matching page_docs. split; [|split].
  - intros Hpage [Hl1 Hl2] Hts. unfold get_user_chats.
    rewrite !(proj2 (Z.leb_le _ _)) by done. cbn [andb negb driver mbind py_bind].
    rewrite take_take, Nat.min_id. fold matching. fold page_docs.
    destruct (to_responses_returns_from page_docs [] Hts) as [rs Hrs].
    unfold to_responses. rewrite Hrs. by eexists.
  - intros f1 f2 r. unfold get_user_chats.
    destruct (negb _); [done|].
    destruct f1; [done|]. destruct f2; [done|].
    cbn [driver mbind py_bind]. rewrite take_take, Nat.min_id.
    fold matching. fold page_docs.
    destruct (to_responses page_docs) as [rs|] eqn:Hrs; [|done].
    cbn [mbind py_bind]. intros [= <-]. cbn [p_chats p_total p_page p_limit].
    apply to_responses_Forall2 in Hrs.
    pose proof (sort_timestamp_descending matching) as Hs.
    split; [apply sort_timestamp_perm|]. split; [done|]. split; [done|].
    split; [|split; [|done]].
    + eapply (responses_sorted (λ x y, ts_ltb x y = false)
                (λ x y, str_ltb x y = false)); [|exact Hrs|].
      { done. }
      by apply StronglySorted_take, StronglySorted_drop.
    + assert (Forall (λ d, d_user_id d = user) page_docs) as Hu.
      { apply Forall_take, Forall_drop, Forall_forall. intros d Hd.
        rewrite sort_timestamp_perm in Hd.
        apply list_elem_of_filter in Hd as [Hq _]. unfold user_query in Hq.
        apply Is_true_true in Hq.
        rewrite !andb_true_iff, bool_decide_eq_true in Hq. by destruct Hq as [[? _] _]. }
      clear -Hrs Hu. induction Hrs as [|d c l k Hdc _ IH]; [constructor|].
      apply Forall_cons in Hu as [Hd Hl]. constructor; [|by apply IH].
      apply response_of_inv in Hdc as (_ & -> & _). done.
  - intros fault conversation result. unfold retrieve_chat.
    destruct fault; [done|]. cbn [driver].
    destruct (take 100 _) as [|d found] eqn:Hfound; [done|].
    destruct (to_responses (d :: found)) as [rs|] eqn:Hrs; [|done].
    intros [= <-]. apply to_responses_Forall2 in Hrs. split; [done|].
    eapply (responses_sorted (λ x y, ts_ltb y x = false)
              (λ x y, str_ltb y x = false)); [|exact Hrs|].
    { done. }
    rewrite <-Hfound. apply StronglySorted_take, sort_timestamp_ascending.
Qed.

Lemma user_chats_newest_first_witness :
  let doc i ts :=
    {| d_id := lit i; d_user_id := lit "u"; d_message := lit "hello";
       d_timestamp := Some (lit ts); d_conversation_id := lit "c";
       d_metadata := None |} in
  let st :=
    {| chats := [doc "1" "2024-01-01T10:00:00"; doc "2" "2024-01-03T10:00:00";
                 doc "3" "2024-01-02T10:00:00"];
       summaries := [] |} in
  ∃ r, get_user_chats None None (λ _ _, true) (lit "u") 1 2 None None None st
       = Response 200 r ∧
       r_timestamp <$> p_chats r
       = [lit "2024-01-03T10:00:00"; lit "2024-01-02T10:00:00"] ∧
       StronglySorted
         (λ a b, str_ltb (r_timestamp a) (r_timestamp b) = false) (p_chats r).
Proof.
  intros doc st.
  destruct (user_chats_newest_first (λ _ _, true) (lit "u") 1 2 None None None st)
    as (Hret & Hprop & _).
  destruct Hret as [r Hr]; [lia|lia| |].
  { vm_compute. repeat constructor; by eexists. }
  exists r. split; [done|].
  split; [|by apply (Hprop None None r Hr)].
  vm_compute in Hr. by injection Hr as <-.
Defined.

End retrieval_claims.

(** ** Deleting a conversation *)

Section delete_claims.
Import PyStr Main.

(** Every stored summary belongs to a conversation that has messages. *)
Lemma reachable_summaries_have_messages st :
  reachable st →
  ∀ s, s ∈ summaries st →
       ∃ d, d ∈ chats st ∧ d_conversation_id d = s_conversation_id s.
Proof.
  induction 1 as [|st new_id fresh chat _ IH|st chats_in _ IH
                  |st key api now cid max_length _ IH|st cid _ IH].
  - intros s ?%elem_of_nil. done.
  - simpl. intros s (d & Hd & Heq)%IH. exists d.
    split; [|done]. apply elem_of_app. by left.
  - unfold store_chats_bulk.
    destruct (_ <$> chats_in); simpl; [done|].
    intros s (d & Hd & Heq)%IH. exists d.
    split; [|done]. apply elem_of_app. by left.
  - unfold summarize_chat. cbn [driver].
    destruct (take 100 _) as [|d found] eqn:Hfound; [done|].
    destruct (get_gemini_summary _ _ _ _); simpl; [|done].
    intros s [Hs| ->%list_elem_of_singleton]%elem_of_app; [by apply IH|].
    exists d. simpl.
    assert (d ∈ take 100 (sort_timestamp 1
               (filter (λ d, matches_conversation cid d) (chats st)))) as Hd.
    { rewrite Hfound. left. }
    apply elem_of_take in Hd as (i & Hd%list_elem_of_lookup_2 & _).
    rewrite sort_timestamp_perm in Hd.
    apply list_elem_of_filter in Hd as [Hm Hd]. split; [done|].
    unfold matches_conversation in Hm. by apply bool_decide_unpack in Hm.
  - unfold delete_chat. cbn [driver].
    destruct (length _) eqn:Hn; simpl.
    + intros s (d & Hd & Heq)%IH. exists d. split; [|done].
      apply list_elem_of_filter. split; [|done].
      apply Is_true_true, negb_true_iff, bool_decide_eq_false. intros Hc.
      assert (d ∈ filter (λ d, matches_conversation cid d) (chats st)) as Hin.
      { apply list_elem_of_filter. split; [|done].
        by apply bool_decide_pack. }
      destruct (filter _ (chats st)); [by apply elem_of_nil in Hin|done].
    + intros s [Hs Hin]%list_elem_of_filter.
      destruct (IH s Hin) as (d & Hd & Heq). exists d. split; [|done].
      apply list_elem_of_filter. split; [|done].
      apply Is_true_true, negb_true_iff, bool_decide_eq_false.
      apply Is_true_true, negb_true_iff, bool_decide_eq_false in Hs.
      congruence.
Qed.

Lemma filter_none_matching {A} (f : A → bool) (l : list A) :
  filter (λ x, f x) l = [] → filter (λ x, negb (f x)) l = l.
Proof.
  induction l as [|x l IH]; [done|]. rewrite !filter_cons.
  destruct (f x); simpl; [done|]. intros Hn. f_equal. by apply IH.
Qed.

(** C8. Deleting a conversation with [n > 0] messages answers 200 with
    the count [n] in its message and leaves the store without the
    messages and without the summaries of that conversation, everything
    else unchanged; with no message of that conversation it answers 404
    and changes nothing. In a store that the requests have built no
    summary of the conversation is left in either case. *)
Theorem delete_chat_removes_conversation (conversation : str) (st : db) :
  let n := length (filter (λ d, matches_conversation conversation d) (chats st)) in
  let st' := (delete_chat None None conversation st).1 in
  let answer := (delete_chat None None conversation st).2 in
  (0 < n →
   answer = Response 200 (lit "Chat deleted successfully. Removed "
                          ++ of_nat n ++ lit " messages.") ∧
   ∀ s, s ∈ summaries st' ↔
        s ∈ summaries st ∧ s_conversation_id s ≠ conversation) ∧
  (n = 0 →
   answer = HTTPException 404 (lit "Chat not found") ∧
   chats st' = chats st ∧ summaries st' = summaries st) ∧
  (∀ d, d ∈ chats st' ↔ d ∈ chats st ∧ d_conversation_id d ≠ conversation) ∧
  (reachable st →
   ∀ s, s ∈ summaries st' ↔
        s ∈ summaries st ∧ s_conversation_id s ≠ conversation).
Proof.
  intros n st' answer.
  assert (∀ d, d ∈ filter (λ d, negb (matches_conversation conversation d)) (chats st)
               ↔ d ∈ chats st ∧ d_conversation_id d ≠ conversation) as Hchats.
  { intros d. rewrite list_elem_of_filter. unfold matches_conversation.
    rewrite Is_true_true, negb_true_iff, bool_decide_eq_false. tauto. }
  assert (∀ s, s ∈ filter (λ s, negb (bool_decide (s_conversation_id s = conversation)))
                     (summaries st)
               ↔ s ∈ summaries st ∧ s_conversation_id s ≠ conversation) as Hsums.
  { intros s. rewrite list_elem_of_filter.
    rewrite Is_true_true, negb_true_iff, bool_decide_eq_false. tauto. }
  assert (n = 0 →
          filter (λ d, negb (matches_conversation conversation d)) (chats st)
          = chats st) as Hnone.
  { unfold n. intros Hn%length_zero_iff_nil. by apply filter_none_matching. }
  subst st' answer. unfold delete_chat. cbn [driver]. fold n.
  destruct n as [|k] eqn:Hn; cbn [fst snd chats summaries].
  - split; [lia|]. split; [by rewrite Hnone|]. split; [done|].
    intros Hreach s. split; [|by intros [? _]].
    intros Hs. split; [done|]. intros Hc.
    destruct (reachable_summaries_have_messages st Hreach s Hs) as (d & Hd & Heq).
    assert (d ∈ filter (λ d, matches_conversation conversation d) (chats st)) as Hin.
    { apply list_elem_of_filter. split; [|done].
      apply bool_decide_pack. congruence. }
    unfold n in Hn. apply length_zero_iff_nil in Hn. rewrite Hn in Hin.
    by apply elem_of_nil in Hin.
  - split; [done|]. split; [lia|]. done.
Qed.

Lemma delete_chat_removes_conversation_witness :
  let msg :=
    {| user_id := lit "u"; message := lit "hello";
       timestamp := Some (lit "2024-01-01T10:00:00");
       conversation_id := Some (lit "c"); metadata := None |} in
  let st := (store_chat None (lit "1") (lit "fresh") msg
               {| chats := []; summaries := [] |}).1 in
  (delete_chat None None (lit "c") st).2
  = Response 200 (lit "Chat deleted successfully. Removed 1 messages.") ∧
  (∀ s, s ∈ summaries (delete_chat None None (lit "c") st).1 ↔
        s ∈ summaries st ∧ s_conversation_id s ≠ lit "c").
Proof.
  intros msg st.
  destruct (delete_chat_removes_conversation (lit "c") st)
    as (Hsome & _ & _ & Hreach).
  split.
  - destruct Hsome as [-> _]; [vm_compute; lia|]. by vm_compute.
  - apply Hreach. apply reach_store, reach_empty.
Defined.

End delete_claims.

(** ** Participants of a stored conversation *)

Section participant_claims.
Import PyStr BackupSummary Main.

(** C5. The participant count is not always the number of distinct
    senders.  Under [# Extract user IDs] the code keeps the lines that
    start with ["User "] and removes the label with [replace], which
    also deletes ["User "] inside the identifier.  For a stored
    conversation of the two users ["A"] and ["User A"], [summarize_chat]
    builds the lines ["User A: hi"] and ["User User A: yo"]; removing
    the label in front gives the two senders, the code gives the one
    identifier ["A"] and the summary says [1 participants]. *)
Theorem participants_merged_by_replace :
  let doc user_id message :=
    {| d_id := lit "i"; d_user_id := lit user_id; d_message := lit message;
       d_timestamp := Some (lit "2024-01-01"); d_conversation_id := lit "c";
       d_metadata := None |} in
  let found := [doc "A" "hi"; doc "User A" "yo"] in
  let conversation_text := transcript_of found in
  conversation_text
  = lit "User A: hi" ++ [newline] ++ lit "User User A: yo" ++ [newline] ∧
  size (list_to_set (C := gset str) (d_user_id <$> found)) = 2 ∧
  Spec.sender_id <$> lines_of conversation_text = d_user_id <$> found ∧
  Spec.participant_count conversation_text = 2 ∧
  collect_user_ids (lines_of conversation_text) = Ret {[ lit "A" ]} ∧
  generate_simple_summary conversation_text None
  = Ret (lit "This conversation consists of 2 messages between 1 participants. The conversation starts with 'hi...' and ends with 'yo...'") ∧
  ¬ ∃ rest,
      generate_simple_summary conversation_text None
      = Ret (header (length (lines_of conversation_text))
               (Spec.participant_count conversation_text) ++ rest).
Proof.
  intros doc found conversation_text.
  split; [by vm_compute|]. split; [by vm_compute|]. split; [by vm_compute|].
  split; [by vm_compute|]. split; [by vm_compute|]. split; [by vm_compute|].
  intros (rest & H). vm_compute in H. discriminate H.
Qed.

End participant_claims.

(** * Further properties of the code *)

(** ** mongo_to_dict *)

Section mongo_to_dict_facts.
Import PyStr Main.

Lemma bson_induction (P : bson → Prop) :
  (∀ hex, P (BObjectId hex)) → P BNull → (∀ b, P (BBool b)) →
  (∀ z, P (BInt z)) → (∀ s, P (BStr s)) →
  (∀ l, Forall P l → P (BList l)) →
  (∀ d, Forall (λ kv, P kv.2) d → P (BDict d)) →
  ∀ v, P v.
Proof.
  intros Hoid Hnull Hbool Hint Hstr Hlist Hdict. fix IH 1.
  intros [hex| |b|z|s|l|d];
    [apply Hoid|apply Hnull|apply Hbool|apply Hint|apply Hstr| |].
  - apply Hlist. induction l as [|v l IHl]; constructor; [apply IH|exact IHl].
  - apply Hdict. induction d as [|[k v] d IHd]; constructor; [apply IH|exact IHd].
Qed.

Lemma json_induction (P : json → Prop) :
  P JNull → (∀ b, P (JBool b)) → (∀ z, P (JNum z)) → (∀ s, P (JStr s)) →
  (∀ l, Forall P l → P (JList l)) →
  (∀ d, Forall (λ kv, P kv.2) d → P (JDict d)) →
  ∀ j, P j.
Proof.
  intros Hnull Hbool Hnum Hstr Hlist Hdict. fix IH 1.
  intros [|b|z|s|l|d];
    [apply Hnull|apply Hbool|apply Hnum|apply Hstr| |].
  - apply Hlist. induction l as [|v l IHl]; constructor; [apply IH|exact IHl].
  - apply Hdict. induction d as [|[k v] d IHd]; constructor; [apply IH|exact IHd].
Qed.

(** What [mongo_to_dict] does to a value found inside a dict or a list. *)
Lemma mongo_to_dict_list l :
  mongo_to_dict (BList l)
  = BList (map (λ v, match v with
                     | BObjectId hex => BStr hex
                     | _ => mongo_to_dict v
                     end) l).
Proof.
  simpl. f_equal. apply map_ext. by intros [].
Qed.

Lemma mongo_to_dict_dict d :
  mongo_to_dict (BDict d)
  = BDict (map (λ kv, (kv.1, match kv.2 with
                             | BObjectId hex => BStr hex
                             | v => mongo_to_dict v
                             end)) d).
Proof.
  simpl. f_equal. apply map_ext. by intros [k []].
Qed.

Lemma no_object_id_fixed v : no_object_id v = true → mongo_to_dict v = v.
Proof.
  induction v as [hex| |b|z|s|l IH|d IH] using bson_induction; try done.
  - rewrite mongo_to_dict_list. simpl. intros Hl. f_equal.
    induction IH as [|v l Hv _ IHl]; [done|]. simpl in *.
    apply andb_true_iff in Hl as [Hv' Hl]. rewrite IHl by done. f_equal.
    destruct v; try done; by apply Hv.
  - rewrite mongo_to_dict_dict. simpl. intros Hd. f_equal.
    induction IH as [|[k v] d Hv _ IHd]; [done|]. simpl in *.
    apply andb_true_iff in Hd as [Hv' Hd]. rewrite IHd by done. do 2 f_equal.
    destruct v; try done; by apply Hv.
Qed.

Lemma mongo_to_dict_clean v :
  (∀ hex, v ≠ BObjectId hex) → no_object_id (mongo_to_dict v) = true.
Proof.
  induction v as [hex| |b|z|s|l IH|d IH] using bson_induction;
    intros Hv; try done.
  - by destruct (Hv hex).
  - rewrite mongo_to_dict_list. simpl. clear Hv.
    induction IH as [|v l Hv _ IHl]; [done|]. simpl.
    rewrite IHl, andb_true_r. destruct v; try done; by apply Hv.
  - rewrite mongo_to_dict_dict. simpl. clear Hv.
    induction IH as [|[k v] d Hv _ IHd]; [done|]. simpl in *.
    rewrite IHd, andb_true_r. destruct v; try done; by apply Hv.
Qed.

Lemma json_to_bson_no_object_id j : no_object_id (json_to_bson j) = true.
Proof.
  induction j as [|b|z|s|l IH|d IH] using json_induction; try done.
  - simpl. induction IH as [|v l Hv _ IHl]; [done|]. simpl.
    by rewrite Hv, IHl.
  - simpl. induction IH as [|[k v] d Hv _ IHd]; [done|]. simpl in *.
    by rewrite Hv, IHd.
Qed.

Lemma mongo_to_dict_stringify v :
  (∀ hex, v ≠ BObjectId hex) → mongo_to_dict v = stringify v.
Proof.
  induction v as [hex| |b|z|s|l IH|d IH] using bson_induction;
    intros Hv; try done.
  - by destruct (Hv hex).
  - rewrite mongo_to_dict_list. simpl. f_equal. clear Hv.
    induction IH as [|v l Hv _ IHl]; [done|]. simpl. rewrite IHl. f_equal.
    destruct v; try done; by apply Hv.
  - rewrite mongo_to_dict_dict. simpl. f_equal. clear Hv.
    induction IH as [|[k v] d Hv _ IHd]; [done|]. simpl in *.
    rewrite IHd. do 2 f_equal. destruct v; try done; by apply Hv.
Qed.

(** X1. On a dict or a list [mongo_to_dict] returns the same value with
    every ObjectId, at any depth, replaced by its string and nothing
    else changed, so no ObjectId is left in it. An object that is itself
    an ObjectId, and not a dict or a list, is returned as it is. *)
Theorem mongo_to_dict_removes_object_ids :
  (∀ v, (∀ hex, v ≠ BObjectId hex) →
        mongo_to_dict v = stringify v ∧
        no_object_id (mongo_to_dict v) = true) ∧
  (∀ hex, mongo_to_dict (BObjectId hex) = BObjectId hex).
Proof.
  split; [|done]. intros v Hv.
  split; [by apply mongo_to_dict_stringify|by apply mongo_to_dict_clean].
Qed.

Lemma mongo_to_dict_removes_object_ids_witness :
  mongo_to_dict
    (BDict [(lit "_id", BObjectId (lit "65f0c0ffee65f0c0ffee65f0"));
            (lit "n", BInt 3);
            (lit "refs", BList [BObjectId (lit "65f0c0ffee65f0c0ffee65f1");
                                BDict [(lit "x", BObjectId (lit "00"))]])])
  = BDict [(lit "_id", BStr (lit "65f0c0ffee65f0c0ffee65f0"));
           (lit "n", BInt 3);
           (lit "refs", BList [BStr (lit "65f0c0ffee65f0c0ffee65f1");
                               BDict [(lit "x", BStr (lit "00"))]])].
Proof.
  destruct mongo_to_dict_removes_object_ids as [H _].
  destruct (H (BDict [(lit "_id", BObjectId (lit "65f0c0ffee65f0c0ffee65f0"));
                      (lit "n", BInt 3);
                      (lit "refs",
                       BList [BObjectId (lit "65f0c0ffee65f0c0ffee65f1");
                              BDict [(lit "x", BObjectId (lit "00"))]])]))
    as [-> _]; [by intros hex|]. reflexivity.
Defined.

(** X2. [mongo_to_dict] changes only ObjectIds: a value without one is
    returned unchanged, and converting a second time changes nothing. *)
Theorem mongo_to_dict_idempotent :
  (∀ v, no_object_id v = true → mongo_to_dict v = v) ∧
  (∀ v, mongo_to_dict (mongo_to_dict v) = mongo_to_dict v).
Proof.
  split; [apply no_object_id_fixed|]. intros v.
  destruct v as [hex| | | | |l|d] eqn:Hv; try done;
    by apply no_object_id_fixed, mongo_to_dict_clean.
Qed.

Lemma mongo_to_dict_idempotent_witness :
  mongo_to_dict (BDict [(lit "user_id", BStr (lit "u")); (lit "n", BInt 3)])
  = BDict [(lit "user_id", BStr (lit "u")); (lit "n", BInt 3)].
Proof. by apply mongo_to_dict_idempotent. Defined.

(** X3. On a document of the [chats] collection [mongo_to_dict] turns the
    [_id] into its string and changes nothing else, whatever the
    metadata holds. *)
Theorem mongo_to_dict_chat_document (d : chat_doc) :
  mongo_to_dict (doc_bson d)
  = BDict [(lit "_id", BStr (d_id d));
           (lit "user_id", BStr (d_user_id d));
           (lit "message", BStr (d_message d));
           (lit "timestamp", option_to_bson BStr (d_timestamp d));
           (lit "conversation_id", BStr (d_conversation_id d));
           (lit "metadata",
            option_to_bson
              (λ m, BDict (map (λ kv, match kv with
                                      | (k, v) => (k, json_to_bson v)
                                      end) m))
              (d_metadata d))].
Proof.
  unfold doc_bson. rewrite mongo_to_dict_dict. cbn [map fst snd].
  assert (∀ s, mongo_to_dict (BStr s) = BStr s) as Hs by done.
  rewrite !Hs. repeat f_equal.
  - by destruct (d_timestamp d).
  - destruct (d_metadata d) as [m|]; [|done]. cbn [option_to_bson].
    pose proof (json_to_bson_no_object_id (JDict m)) as H.
    by apply (no_object_id_fixed (json_to_bson (JDict m))).
Qed.

End mongo_to_dict_facts.

(** ** run_model_test.py: the list of models to test *)

Section run_model_test_facts.
Import RunModelTest.

Lemma add_models_spec (names content_models : list str) :
  NoDup names →
  NoDup (add_models names content_models) ∧
  names `prefix_of` add_models names content_models ∧
  ∀ m, m ∈ add_models names content_models ↔ m ∈ names ∨ m ∈ content_models.
Proof.
  unfold add_models. revert names.
  induction content_models as [|c cm IH]; intros names Hnd; simpl.
  { split; [done|]. split; [done|]. intros m. rewrite elem_of_nil. tauto. }
  case_bool_decide as Hc.
  - destruct (IH names Hnd) as (? & ? & Hin). split; [done|]. split; [done|].
    intros m. rewrite Hin, elem_of_cons. split; [tauto|].
    intros [?|[->|?]]; auto.
  - destruct (IH (names ++ [c])) as (? & Hpre & Hin).
    { apply NoDup_app. split; [done|]. split; [|apply NoDup_singleton].
      by intros m Hm ->%list_elem_of_singleton. }
    split; [done|]. split.
    { etrans; [|exact Hpre]. by apply prefix_app_r. }
    intros m. rewrite Hin, elem_of_app, list_elem_of_singleton, elem_of_cons.
    tauto.
Qed.

Lemma working_models_filter api (names : list str) :
  working_models api names = filter (λ m, test_model api m) names.
Proof.
  unfold working_models.
  assert (∀ acc, foldl (λ working model_name,
                          if test_model api model_name
                          then working ++ [model_name] else working)
                   acc names
                 = acc ++ filter (λ m, test_model api m) names) as H;
    [|by rewrite H].
  induction names as [|m names IH]; intros acc; simpl.
  { by rewrite app_nil_r. }
  rewrite IH, filter_cons. destruct (test_model api m); simpl; [|done].
  by rewrite <-(assoc_L (++)).
Qed.

(** X4. The models [main] tests: the five built-in names first, then every
    listed model that is not yet there; no model is tested twice, and the
    working models come out in the order tested, each once. *)
Theorem model_names_no_duplicates api (content_models : list str) :
  let model_names := add_models default_model_names content_models in
  NoDup model_names ∧
  default_model_names `prefix_of` model_names ∧
  (∀ m, m ∈ model_names ↔ m ∈ default_model_names ∨ m ∈ content_models) ∧
  NoDup (working_models api model_names) ∧
  (∀ m, m ∈ working_models api model_names ↔
        m ∈ model_names ∧ test_model api m = true).
Proof.
  intros model_names.
  destruct (add_models_spec default_model_names content_models)
    as (Hnd & Hpre & Hin).
  { apply (bool_decide_unpack _). by vm_compute. }
  split; [done|]. split; [done|]. split; [done|].
  rewrite working_models_filter. split; [by apply NoDup_filter|].
  intros m. rewrite list_elem_of_filter, Is_true_true. tauto.
Qed.

End run_model_test_facts.

(** ** The fallback summarizer: what the counts and the topics are like *)

Section summary_shape.
Import PyStr BackupSummary.

Lemma size_list_to_set_le (l : list str) :
  size (list_to_set (C := gset str) l) ≤ length l.
Proof.
  apply submseteq_length, NoDup_submseteq; [apply NoDup_elements|].
  intros x. by rewrite elem_of_elements, elem_of_list_to_set.
Qed.

(** X5. The summary never reports zero messages, and never more
    participants than messages. *)
Theorem summary_counts_bounds conversation_text max_length
    line_count participant_count rest :
  generate_simple_summary conversation_text max_length
  = Ret (header line_count participant_count ++ rest) →
  1 ≤ line_count ∧ participant_count ≤ line_count.
Proof.
  destruct (generate_simple_summary_ret conversation_text max_length)
    as (l0 & ll & Hhd & _ & ->).
  intros H%Ret_inj. apply header_inj in H as (<- & <- & _). split.
  - destruct (lines_of conversation_text); [done|simpl; lia].
  - etrans; [apply size_list_to_set_le|].
    rewrite length_fmap. apply length_filter.
Qed.

Lemma summary_counts_bounds_witness :
  let t := lit "User a: hi" ++ [newline] ++ lit "User b: ho" ++ [newline]
           ++ lit "bye" in
  let rest := lit "The conversation starts with 'hi...' and ends with 'bye...'" in
  generate_simple_summary t None = Ret (header 3 2 ++ rest) ∧
  1 ≤ 3 ∧ 2 ≤ 3.
Proof.
  intros t rest.
  assert (generate_simple_summary t None = Ret (header 3 2 ++ rest)) as H
    by (by vm_compute).
  split; [exact H|]. exact (summary_counts_bounds t None 3 2 rest H).
Defined.

Lemma lower_char_idempotent c : lower_char (lower_char c) = lower_char c.
Proof. destruct c as [[] [] [] [] [] [] [] []]; reflexivity. Qed.

(** Every token of [s.split()] is made of characters of [s] that are
    not whitespace. *)
Lemma split_ws_go_tokens (R : ascii → Prop) cur s w :
  Forall R cur →
  Forall (λ c, isspace c = false → R c) s →
  w ∈ split_ws_go cur s → Forall R w ∧ w ≠ [].
Proof.
  revert cur. induction s as [|c s IH]; intros cur Hcur Hs; simpl.
  - destruct cur as [|c' cur']; [by intros ?%elem_of_nil|].
    intros ->%list_elem_of_singleton. split.
    + by apply Forall_reverse.
    + intros Hr. apply (f_equal length) in Hr.
      rewrite length_reverse in Hr. done.
  - apply Forall_cons in Hs as [Hc Hs].
    destruct (isspace c) eqn:Hsp.
    + destruct cur as [|c' cur']; [by apply IH|].
      intros [->|Hw]%elem_of_cons; [|by apply (IH [])].
      split; [by apply Forall_reverse|].
      intros Hr. apply (f_equal length) in Hr.
      rewrite length_reverse in Hr. done.
    + apply IH; [|done]. constructor; auto.
Qed.

(** X6. The key topics are distinct, at least five characters long, in
    lower case and free of whitespace. *)
Theorem key_topics_shape conversation_text :
  NoDup (top_words_of conversation_text) ∧
  ∀ w, w ∈ top_words_of conversation_text →
       5 ≤ length w ∧ lower w = w ∧ Forall (λ c, isspace c = false) w.
Proof.
  split.
  - unfold top_words_of. rewrite fmap_take.
    eapply sublist_NoDup; [|apply sublist_take].
    unfold ranked. rewrite stable_sort_perm.
    by destruct (count_words_invariant (words_of conversation_text)) as (? & _).
  - intros w [Hw Hlen]%top_words_elem. split; [lia|].
    unfold words_of, split_ws in Hw.
    destruct (split_ws_go_tokens (λ c, lower_char c = c) []
                (lower conversation_text) w) as [Hlow _]; [constructor| |done|].
    { unfold lower. apply Forall_fmap, Forall_forall. intros c _ _.
      apply lower_char_idempotent. }
    destruct (split_ws_go_tokens (λ c, isspace c = false) []
                (lower conversation_text) w) as [Hsp _];
      [constructor|by apply Forall_forall|done|].
    split; [|done]. unfold lower. clear -Hlow.
    induction Hlow as [|c w' Hc _ IH]; [done|]. csimpl. by rewrite Hc, IH.
Qed.

Lemma key_topics_shape_witness :
  5 ≤ length (lit "hello") ∧ lower (lit "hello") = lit "hello" ∧
  Forall (λ c, isspace c = false) (lit "hello").
Proof.
  apply (key_topics_shape (lit "User A: HELLO hello World")).
  vm_compute. left.
Defined.

End summary_shape.

(** ** The fallback summarizer on the transcript of [summarize_chat] *)

Section transcript_facts.
Import PyStr BackupSummary Main.

Lemma lstrip_app_nonspace x c y :
  isspace c = false → lstrip (x ++ c :: y) = lstrip x ++ c :: y.
Proof.
  intros Hc. induction x as [|a x IH]; simpl; [by rewrite Hc|].
  by destruct (isspace a).
Qed.

Lemma rstrip_app_nonspace a c r :
  isspace c = false → rstrip (a ++ c :: r) = a ++ c :: rstrip r.
Proof.
  intros Hc. unfold rstrip.
  rewrite reverse_app, reverse_cons, <-(assoc_L (++)). simpl.
  rewrite lstrip_app_nonspace by done.
  by rewrite reverse_app, reverse_cons, reverse_involutive, <-(assoc_L (++)).
Qed.

Lemma rstrip_snoc_space x c : isspace c = true → rstrip (x ++ [c]) = rstrip x.
Proof. intros Hc. unfold rstrip. rewrite reverse_snoc. simpl. by rewrite Hc. Qed.

Lemma lstrip_suffix s : ∃ w, s = w ++ lstrip s.
Proof.
  induction s as [|c s [w IH]]; simpl; [by exists []|].
  destruct (isspace c); [|by exists []]. exists (c :: w). simpl. by f_equal.
Qed.

Lemma rstrip_prefix s : ∃ w, s = rstrip s ++ w.
Proof.
  unfold rstrip. destruct (lstrip_suffix (reverse s)) as [w Hw].
  exists (reverse w).
  by rewrite <-reverse_app, <-Hw, reverse_involutive.
Qed.

Lemma rstrip_not_elem c s : c ∉ s → c ∉ rstrip s.
Proof.
  destruct (rstrip_prefix s) as [w Hw]. intros Hc Hin. apply Hc.
  rewrite Hw. apply elem_of_app. by left.
Qed.

Lemma split_no_sep sep a : sep ∉ a → split sep a = [a].
Proof.
  induction a as [|c a IH]; simpl; [done|].
  rewrite not_elem_of_cons. intros [Hc Ha].
  rewrite bool_decide_eq_false_2 by congruence. by rewrite IH.
Qed.

Lemma split_app_sep sep a b :
  sep ∉ a → split sep (a ++ sep :: b) = a :: split sep b.
Proof.
  induction a as [|c a IH]; simpl.
  - intros _. by rewrite bool_decide_eq_true_2.
  - rewrite not_elem_of_cons. intros [Hc Ha].
    rewrite bool_decide_eq_false_2 by congruence. by rewrite IH.
Qed.

Lemma transcript_of_snoc found chat :
  transcript_of (found ++ [chat])
  = transcript_of found ++ transcript_line chat ++ [newline].
Proof.
  unfold transcript_of, transcript_line. rewrite foldl_snoc.
  by rewrite <-!(assoc_L (++)).
Qed.

Lemma transcript_of_cons chat found :
  transcript_of (chat :: found)
  = transcript_line chat ++ newline :: transcript_of found.
Proof.
  induction found as [|d found IH] using rev_ind.
  - pose proof (transcript_of_snoc [] chat) as H. simpl app at 1 in H.
    rewrite H. unfold transcript_of at 1. cbn [foldl app]. done.
  - rewrite app_comm_cons, !transcript_of_snoc, IH.
    by rewrite <-!(assoc_L (++)).
Qed.

Lemma newline_not_in_user : newline ∉ (lit "User ").
Proof. apply (bool_decide_unpack _). by vm_compute. Qed.

Lemma transcript_line_no_newline chat :
  newline ∉ d_user_id chat → newline ∉ d_message chat →
  newline ∉ transcript_line chat.
Proof.
  intros Hu Hm. unfold transcript_line.
  rewrite !elem_of_app. intros [H|[H|[H|H]]]; try done.
  - by apply newline_not_in_user.
  - revert H. apply (bool_decide_unpack _). by vm_compute.
Qed.

Lemma split_transcript found x :
  Forall (λ d, (newline ∉ d_user_id d) ∧ (newline ∉ d_message d)) found →
  newline ∉ x →
  split newline (transcript_of found ++ x) = (transcript_line <$> found) ++ [x].
Proof.
  intros Hfound Hx. induction Hfound as [|d found [Hdu Hdm] _ IH].
  - by apply split_no_sep.
  - rewrite transcript_of_cons, <-(assoc_L (++)), <-app_comm_cons.
    rewrite split_app_sep by (by apply transcript_line_no_newline).
    by rewrite IH.
Qed.

(** The lines the summarizer sees for a conversation whose user ids and
    messages hold no newline: one per message, the last one without its
    trailing whitespace. *)
Lemma lines_of_transcript found chat :
  Forall (λ d, (newline ∉ d_user_id d) ∧ (newline ∉ d_message d))
    (found ++ [chat]) →
  ∃ tail,
    (newline ∉ tail) ∧
    lines_of (transcript_of (found ++ [chat]))
    = (transcript_line <$> found)
      ++ [lit "User " ++ d_user_id chat ++ ":"%char :: tail].
Proof.
  intros [Hfound Hchat]%Forall_app.
  apply Forall_singleton in Hchat as [Hu Hm].
  exists (rstrip (" "%char :: d_message chat)).
  assert (newline ∉ rstrip (" "%char :: d_message chat)) as Htail.
  { apply rstrip_not_elem. rewrite not_elem_of_cons. done. }
  split; [done|]. unfold lines_of, strip.
  assert (lstrip (transcript_of (found ++ [chat]))
          = transcript_of (found ++ [chat])) as ->.
  { destruct found as [|d found]; simpl app; by rewrite transcript_of_cons. }
  assert (transcript_of (found ++ [chat])
          = (transcript_of found ++ lit "User " ++ d_user_id chat)
            ++ ":"%char :: (" "%char :: d_message chat) ++ [newline]) as ->.
  { rewrite transcript_of_snoc. unfold transcript_line.
    change (lit ": ") with ([":"%char] ++ [" "%char]).
    by rewrite <-!(assoc_L (++)). }
  rewrite rstrip_app_nonspace, rstrip_snoc_space by done.
  rewrite <-!(assoc_L (++)). apply split_transcript; [done|].
  rewrite !elem_of_app, elem_of_cons.
  intros [H|[H|[H|H]]]; try done. by apply newline_not_in_user.
Qed.

Lemma exists_last_chat (found : list chat_doc) :
  found ≠ [] → ∃ init chat, found = init ++ [chat].
Proof.
  destruct found as [|d found] using rev_ind; [done|]. intros _. by eexists _, _.
Qed.

(** X7. When the Gemini call fails, [POST /chats/summarize] still answers
    200, with the fallback summary, and that summary reports the number
    of messages it was given (the conversation's, up to 100) provided no
    user id and no message of the store holds a newline. *)
Theorem summarize_fallback_reports_message_count
    (GEMINI_API_KEY : option str) (generate_content : str → py response)
    (e : exn) (now conversation : str) (max_length : option Z) (st : db) :
  let found :=
    take 100 (sort_timestamp 1
      (filter (λ d, matches_conversation conversation d) (chats st))) in
  truthy GEMINI_API_KEY = true →
  (∀ prompt, generate_content prompt = Raise e) →
  Forall (λ d, (newline ∉ d_user_id d) ∧ (newline ∉ d_message d)) (chats st) →
  found ≠ [] →
  ∃ participants rest,
    (summarize_chat None None GEMINI_API_KEY generate_content now
       conversation max_length st).2
    = Response 200
        (conversation, header (length found) participants ++ rest).
Proof.
  intros found Hkey Hapi Hclean Hne.
  assert (Forall (λ d, (newline ∉ d_user_id d) ∧ (newline ∉ d_message d)) found)
    as Hfound.
  { apply Forall_take. apply Forall_forall. intros d Hd.
    rewrite sort_timestamp_perm in Hd.
    apply list_elem_of_filter in Hd as [_ Hd].
    by eapply Forall_forall in Hclean. }
  unfold summarize_chat. cbn [driver]. fold found.
  destruct found as [|d0 found0] eqn:Hf; [done|].
  unfold get_gemini_summary. rewrite Hkey. cbn [negb].
  unfold gemini_request. rewrite Hapi. cbn [mbind py_bind try_except].
  destruct (generate_simple_summary_ret (transcript_of (d0 :: found0)) max_length)
    as (l0 & ll & _ & _ & ->).
  cbn [try_except snd].
  destruct (exists_last_chat (d0 :: found0)) as (init & chat & Heq); [done|].
  rewrite Heq in Hfound |- *.
  destruct (lines_of_transcript init chat Hfound) as (tail & _ & ->).
  rewrite !length_app, length_fmap. simpl length.
  by eexists _, _.
Qed.

Lemma summarize_fallback_reports_message_count_witness :
  let doc i ts msg :=
    {| d_id := lit i; d_user_id := lit "u"; d_message := lit msg;
       d_timestamp := Some (lit ts); d_conversation_id := lit "c";
       d_metadata := None |} in
  let st :=
    {| chats := [doc "1" "2024-01-01T10:00:00" "hello there";
                 doc "2" "2024-01-02T10:00:00" "how are you"];
       summaries := [] |} in
  ∃ participants rest,
    (summarize_chat None None (Some (lit "key"))
       (λ _, Raise (Exn (lit "ServiceUnavailable") (lit "503")))
       (lit "2024-01-03T10:00:00") (lit "c") (Some 50%Z) st).2
    = Response 200 (lit "c", header 2 participants ++ rest).
Proof.
  intros doc st.
  apply (summarize_fallback_reports_message_count (Some (lit "key"))
           (λ _, Raise (Exn (lit "ServiceUnavailable") (lit "503")))
           (Exn (lit "ServiceUnavailable") (lit "503"))
           (lit "2024-01-03T10:00:00") (lit "c") (Some 50%Z) st).
  - reflexivity.
  - reflexivity.
  - repeat constructor; apply (bool_decide_unpack _); by vm_compute.
  - by vm_compute.
Defined.

Lemma startswith_app p s : startswith p (p ++ s) = true.
Proof.
  induction p as [|c p IH]; simpl; [done|].
  by rewrite bool_decide_eq_true_2, IH.
Qed.

Lemma replace_go_skip old new p s :
  replace_go old new (length p) (p ++ s) = replace_go old new 0 s.
Proof. induction p as [|c p IH]; simpl; [done|]. exact IH. Qed.

Lemma replace_prefix old new s :
  old ≠ [] → replace old new (old ++ s) = new ++ replace old new s.
Proof.
  destruct old as [|c old]; [done|]. intros _. unfold replace.
  pose proof (startswith_app (c :: old) s) as H.
  cbn [app] in *. cbn [replace_go]. rewrite H.
  replace (length (c :: old) - 1) with (length old) by (simpl; lia).
  by rewrite replace_go_skip.
Qed.

Lemma replace_absent old new s :
  contains old s = false → replace old new s = s.
Proof.
  unfold replace. induction s as [|c s IH]; [done|].
  cbn [contains replace_go]. intros [Hs Hc]%orb_false_iff.
  rewrite Hs. f_equal. by apply IH.
Qed.

Lemma before_first_app c a b :
  c ∉ a → Spec.before_first c (a ++ c :: b) = a.
Proof.
  induction a as [|x a IH]; simpl.
  - intros _. by rewrite bool_decide_eq_true_2.
  - rewrite not_elem_of_cons. intros [Hx Ha].
    rewrite bool_decide_eq_false_2 by congruence. by rewrite IH.
Qed.

(** The identifier the summarizer extracts from a transcript line is the
    user id, when the user id holds no colon and no ["User "] and has no
    whitespace around it. *)
Lemma user_line_id u t :
  colon ∉ u → contains (lit "User ") u = false → strip u = u →
  startswith (lit "User ") (lit "User " ++ u ++ colon :: t) = true ∧
  strip (replace (lit "User ") []
           (Spec.before_first colon (lit "User " ++ u ++ colon :: t))) = u.
Proof.
  intros Hc Hu Hs. split; [apply startswith_app|].
  rewrite (assoc_L (++)), before_first_app.
  - rewrite replace_prefix by done. simpl. by rewrite replace_absent.
  - rewrite elem_of_app. intros [H|H]; [|done].
    revert H. apply (bool_decide_unpack _). by vm_compute.
Qed.

(** X8. On the transcript of a conversation the fallback summary reports
    the number of messages and the number of distinct user ids, when no
    message holds a newline and every user id is free of newlines,
    colons, the text ["User "] and surrounding whitespace. *)
Theorem fallback_counts_transcript_participants
    (found : list chat_doc) (max_length : option Z) :
  found ≠ [] →
  Forall (λ d, (newline ∉ d_user_id d) ∧ (newline ∉ d_message d)) found →
  Forall (λ d, (colon ∉ d_user_id d) ∧
               contains (lit "User ") (d_user_id d) = false ∧
               strip (d_user_id d) = d_user_id d) found →
  ∃ rest,
    generate_simple_summary (transcript_of found) max_length
    = Ret (header (length found)
             (size (list_to_set (C := gset str) (d_user_id <$> found)))
           ++ rest).
Proof.
  intros Hne Hnl Hid.
  destruct (generate_simple_summary_ret (transcript_of found) max_length)
    as (l0 & ll & _ & _ & ->).
  destruct (exists_last_chat found Hne) as (init & chat & ->).
  destruct (lines_of_transcript init chat Hnl) as (tail & _ & ->).
  assert (∀ (ds : list chat_doc) (l : list str),
            Forall (λ d, (colon ∉ d_user_id d) ∧
                         contains (lit "User ") (d_user_id d) = false ∧
                         strip (d_user_id d) = d_user_id d) ds →
            Forall2 (λ d line, ∃ t, line = lit "User " ++ d_user_id d ++ colon :: t)
              ds l →
            (λ l, strip (replace (lit "User ") [] (Spec.before_first colon l)))
              <$> filter (λ l, startswith (lit "User ") l) l
            = d_user_id <$> ds) as Hids.
  { intros ds l Hds Hl. induction Hl as [|d line ds l [t ->] _ IH]; [done|].
    apply Forall_cons in Hds as [(Hc & Hu & Hs) Hds].
    destruct (user_line_id (d_user_id d) t Hc Hu Hs) as [Hp Hi].
    rewrite filter_cons, decide_True by (by rewrite Hp).
    rewrite !fmap_cons, Hi. f_equal. by apply IH. }
  rewrite (Hids (init ++ [chat])); [|done|].
  - rewrite !length_app, length_fmap. simpl length. by eexists.
  - apply Forall2_app.
    + apply Forall2_fmap_r, Forall_Forall2_diag, Forall_forall. intros d _.
      exists (" "%char :: d_message d). done.
    + repeat constructor. by exists tail.
Qed.

Lemma fallback_counts_transcript_participants_witness :
  let doc u msg :=
    {| d_id := lit "1"; d_user_id := lit u; d_message := lit msg;
       d_timestamp := None; d_conversation_id := lit "c";
       d_metadata := None |} in
  ∃ rest,
    generate_simple_summary
      (transcript_of [doc "ann" "hello"; doc "bob" "hi"; doc "ann" "bye"]) None
    = Ret (header 3 2 ++ rest).
Proof.
  intros doc.
  destruct (fallback_counts_transcript_participants
              [doc "ann" "hello"; doc "bob" "hi"; doc "ann" "bye"] None)
    as [rest Hrest].
  - done.
  - repeat constructor; apply (bool_decide_unpack _); by vm_compute.
  - repeat constructor; try (apply (bool_decide_unpack _)); by vm_compute.
  - exists rest. rewrite Hrest. by vm_compute.
Defined.

End transcript_facts.

(** ** The Gemini adapter: the shapes of a response *)

Section gemini_shapes.
Import PyStr BackupSummary Main.

Lemma get_gemini_summary_returns key api conversation_text max_length :
  ∃ summary,
    get_gemini_summary key api conversation_text max_length = Ret summary.
Proof.
  unfold get_gemini_summary. destruct (negb _); [by eexists|].
  destruct (gemini_request _ _ _) as [s|e]; simpl; [by eexists|].
  destruct (generate_simple_summary_ret conversation_text max_length)
    as (l0 & ll & _ & _ & ->). by eexists.
Qed.

(** X9. With an API key and an answer from the API: a response with a
    [text] is returned verbatim, whatever its candidates; without a
    [text], the text of the first part of the first candidate is
    returned; a first candidate without parts, or a [text] whose reading
    raises, gives the fallback summary. *)
Theorem get_gemini_summary_response_shapes
    (GEMINI_API_KEY : option str) (generate_content : str → py response)
    (conversation_text : str) (max_length : option Z) (r : response) :
  truthy GEMINI_API_KEY = true →
  generate_content (prompt_of conversation_text max_length) = Ret r →
  (∀ t, text r = Has t →
        get_gemini_summary GEMINI_API_KEY generate_content
          conversation_text max_length = Ret t) ∧
  (∀ t parts cands,
     text r = Missing → candidates r = Has ((t :: parts) :: cands) →
     get_gemini_summary GEMINI_API_KEY generate_content
       conversation_text max_length = Ret t) ∧
  (∀ cands,
     text r = Missing → candidates r = Has ([] :: cands) →
     get_gemini_summary GEMINI_API_KEY generate_content
       conversation_text max_length
     = generate_simple_summary conversation_text max_length) ∧
  (∀ e,
     text r = Throws e →
     get_gemini_summary GEMINI_API_KEY generate_content
       conversation_text max_length
     = generate_simple_summary conversation_text max_length).
Proof.
  intros Hkey Hr.
  destruct (generate_simple_summary_ret conversation_text max_length)
    as (l0 & ll & _ & _ & Hfb).
  unfold get_gemini_summary, gemini_request. rewrite Hkey, Hr.
  cbn [negb mbind py_bind].
  split; [|split; [|split]].
  - by intros t ->.
  - by intros t parts cands -> ->.
  - intros cands -> ->. simpl. by rewrite Hfb.
  - intros e ->. simpl. by rewrite Hfb.
Qed.

Lemma get_gemini_summary_response_shapes_witness :
  get_gemini_summary (Some (lit "key"))
    (λ _, Ret {| text := Has (lit "Two users greet each other.");
                 candidates := Has [[lit "other"]] |})
    (lit "User a: hi") (Some 20%Z)
  = Ret (lit "Two users greet each other.").
Proof.
  by apply (get_gemini_summary_response_shapes (Some (lit "key"))
              (λ _, Ret {| text := Has (lit "Two users greet each other.");
                           candidates := Has [[lit "other"]] |})
              (lit "User a: hi") (Some 20%Z)
              {| text := Has (lit "Two users greet each other.");
                 candidates := Has [[lit "other"]] |}).
Defined.

End gemini_shapes.

(** ** The store: how the requests compose *)

Section store_composition.
Import PyStr Main.

Lemma to_responses_returns l :
  Forall (λ d, is_Some (d_timestamp d)) l →
  ∃ rs, to_responses l = Ret rs ∧ Forall2 response_of l rs.
Proof.
  intros [rs Hrs]%(to_responses_returns_from l []).
  exists rs. split; [done|]. by apply to_responses_Forall2.
Qed.

Lemma to_responses_raises_from l acc :
  Exists (λ d, d_timestamp d = None) l →
  ∃ e, py_for l (λ result chat, r ← to_response chat; Ret (result ++ [r])) acc
       = Raise e.
Proof.
  intros H. revert acc.
  induction H as [d l Hd|d l _ IH]; intros acc; cbn [py_for].
  - assert (to_response d = Raise ValidationError) as ->.
    { unfold to_response. by rewrite Hd. }
    cbn [mbind py_bind]. by eexists.
  - destruct (to_response d) as [r|e]; cbn [mbind py_bind]; [|by eexists].
    apply IH.
Qed.

Lemma filter_matching_other (cid cid' : str) (l : list chat_doc) :
  cid ≠ cid' →
  filter (λ d, matches_conversation cid' d)
    (filter (λ d, negb (matches_conversation cid d)) l)
  = filter (λ d, matches_conversation cid' d) l.
Proof.
  intros Hne. induction l as [|d l IH]; [done|]. rewrite !filter_cons.
  unfold matches_conversation in *.
  destruct (decide (d_conversation_id d = cid')) as [Hd|Hd].
  - rewrite (bool_decide_eq_false_2 (d_conversation_id d = cid)) by congruence.
    rewrite (bool_decide_eq_true_2 (d_conversation_id d = cid')) by done.
    simpl. rewrite filter_cons.
    rewrite (bool_decide_eq_true_2 (d_conversation_id d = cid')) by done.
    simpl. by rewrite IH.
  - rewrite (bool_decide_eq_false_2 (d_conversation_id d = cid')) by done.
    destruct (bool_decide (d_conversation_id d = cid)); simpl; [done|].
    rewrite filter_cons.
    rewrite (bool_decide_eq_false_2 (d_conversation_id d = cid')) by done.
    done.
Qed.

Lemma filter_matching_deleted (cid : str) (l : list chat_doc) :
  filter (λ d, matches_conversation cid d)
    (filter (λ d, negb (matches_conversation cid d)) l) = [].
Proof.
  induction l as [|d l IH]; [done|]. rewrite filter_cons.
  destruct (matches_conversation cid d) eqn:Hd; simpl; [done|].
  rewrite filter_cons, Hd. done.
Qed.

Lemma chats_after_delete cid st :
  chats (delete_chat None None cid st).1
  = filter (λ d, negb (matches_conversation cid d)) (chats st).
Proof. unfold delete_chat. cbn [driver]. by destruct (length _). Qed.

(** X10. A stored message can be read back: after [POST /chats] succeeds,
    [GET /chats/{id}] for the conversation of the message (the new id
    when the request named none) answers 200 with the message in its
    list, when the conversation stays within the 100 messages a
    retrieval returns and all its messages carry a timestamp. *)
Theorem store_then_retrieve (inserted_id fresh : str) (chat : ChatMessage)
    (st : db) :
  let conversation := conversation_of fresh chat in
  let earlier :=
    filter (λ d, matches_conversation conversation d) (chats st) in
  is_Some (timestamp chat) →
  Forall (λ d, is_Some (d_timestamp d)) earlier →
  length earlier < 100 →
  ∃ result r,
    retrieve_chat None conversation
      (store_chat None inserted_id fresh chat st).1 = Response 200 result ∧
    response_of (doc_of inserted_id fresh chat) r ∧
    r ∈ result ∧ r_id r = inserted_id ∧ r_message r = message chat ∧
    length result = S (length earlier).
Proof.
  intros conversation earlier Hts Hearlier Hlen.
  unfold retrieve_chat, store_chat. cbn [driver fst chats].
  rewrite filter_app. fold earlier.
  assert (matches_conversation conversation (doc_of inserted_id fresh chat) = true)
    as Hm by (by apply bool_decide_eq_true_2).
  rewrite filter_cons, decide_True, filter_nil by (by rewrite Hm).
  set (found := earlier ++ [doc_of inserted_id fresh chat]).
  assert (length (sort_timestamp 1 found) = S (length earlier)) as Hlen'.
  { rewrite (Permutation_length (sort_timestamp_perm 1 found)).
    unfold found. rewrite length_app. simpl. lia. }
  rewrite take_ge by lia.
  destruct (to_responses_returns (sort_timestamp 1 found)) as (rs & Hrs & HF).
  { apply Forall_forall. intros d Hd. rewrite sort_timestamp_perm in Hd.
    apply elem_of_app in Hd as [Hd| ->%list_elem_of_singleton].
    - by eapply Forall_forall in Hearlier.
    - done. }
  rewrite Hrs.
  assert (doc_of inserted_id fresh chat ∈ sort_timestamp 1 found) as Hin.
  { rewrite sort_timestamp_perm. apply elem_of_app. right. left. }
  apply list_elem_of_lookup in Hin as [i Hi].
  destruct (Forall2_lookup_l _ _ _ _ _ HF Hi) as (r & Hr & Hdr).
  destruct (sort_timestamp 1 found) as [|d0 l0] eqn:Hs; [done|].
  exists rs, r. split; [done|]. split; [done|].
  split; [by eapply list_elem_of_lookup_2|].
  apply response_of_inv in Hdr as (_ & _ & Hmsg & Hid & _).
  split; [done|]. split; [done|].
  by rewrite <-(Forall2_length _ _ _ HF).
Qed.

Lemma store_then_retrieve_witness :
  let chat :=
    {| user_id := lit "u"; message := lit "hello";
       timestamp := Some (lit "2024-01-01T10:00:00");
       conversation_id := None; metadata := None |} in
  let empty := {| chats := []; summaries := [] |} in
  ∃ result r,
    retrieve_chat None (lit "65f0")
      (store_chat None (lit "1") (lit "65f0") chat empty).1
    = Response 200 result ∧
    r ∈ result ∧ r_message r = lit "hello" ∧ length result = 1.
Proof.
  intros chat empty.
  destruct (store_then_retrieve (lit "1") (lit "65f0") chat empty)
    as (result & r & Hret & _ & Hin & _ & Hmsg & Hlen).
  - by eexists.
  - constructor.
  - simpl. lia.
  - by exists result, r.
Defined.

(** X11. After [DELETE /chats/{id}] the conversation is gone: retrieving it
    answers 404 and deleting it again answers 404, whatever the store
    held. *)
Theorem delete_then_not_found (conversation : str) (st : db) :
  let st' := (delete_chat None None conversation st).1 in
  retrieve_chat None conversation st'
  = HTTPException 404 (lit "Conversation not found") ∧
  delete_chat None None conversation st'
  = (st', HTTPException 404 (lit "Chat not found")).
Proof.
  intros st'.
  assert (filter (λ d, matches_conversation conversation d) (chats st') = [])
    as Hnone.
  { unfold st'. rewrite chats_after_delete. apply filter_matching_deleted. }
  split.
  - unfold retrieve_chat. cbn [driver]. rewrite Hnone. done.
  - unfold delete_chat. cbn [driver]. rewrite Hnone. cbn [length].
    f_equal. destruct st' as [cs ss]. cbn [chats summaries] in *. f_equal.
    by apply filter_none_matching.
Qed.

(** X12. Deleting one conversation does not change what the retrieval of
    another one answers. *)
Theorem delete_keeps_other_conversations (fault : option exn)
    (conversation other : str) (st : db) :
  conversation ≠ other →
  retrieve_chat fault other (delete_chat None None conversation st).1
  = retrieve_chat fault other st.
Proof.
  intros Hne. unfold retrieve_chat.
  by rewrite chats_after_delete, filter_matching_other.
Qed.

Lemma delete_keeps_other_conversations_witness :
  let doc i c :=
    {| d_id := lit i; d_user_id := lit "u"; d_message := lit "hello";
       d_timestamp := Some (lit "2024-01-01T10:00:00");
       d_conversation_id := lit c; d_metadata := None |} in
  let st := {| chats := [doc "1" "a"; doc "2" "b"]; summaries := [] |} in
  retrieve_chat None (lit "b") (delete_chat None None (lit "a") st).1
  = retrieve_chat None (lit "b") st.
Proof.
  intros doc st.
  apply (delete_keeps_other_conversations None (lit "a") (lit "b") st).
  by vm_compute.
Defined.

End store_composition.

(** ** Retrieval: bounds, pages and failures *)

Section retrieval_bounds.
Import PyStr Main.

(** X13. [GET /chats/{id}] answers 404 exactly when the store holds no
    message of the conversation; a 200 answer lists at least one and at
    most 100 messages, all of that conversation. *)
Theorem retrieve_chat_bounds (conversation : str) (st : db) :
  (retrieve_chat None conversation st
   = HTTPException 404 (lit "Conversation not found") ↔
   ∀ d, d ∈ chats st → d_conversation_id d ≠ conversation) ∧
  ∀ fault result,
    retrieve_chat fault conversation st = Response 200 result →
    1 ≤ length result ≤ 100 ∧
    length result
    = 100 `min` length (filter (λ d, matches_conversation conversation d)
                          (chats st)) ∧
    Forall (λ r, r_conversation_id r = Some conversation) result.
Proof.
  split.
  - unfold retrieve_chat. cbn [driver].
    set (m := filter (λ d, matches_conversation conversation d) (chats st)).
    assert (m = [] ↔ ∀ d, d ∈ chats st → d_conversation_id d ≠ conversation)
      as <-.
    { split.
      - intros Hm d Hd Hc.
        assert (d ∈ m) as Hin; [|by rewrite Hm in Hin; apply elem_of_nil in Hin].
        apply list_elem_of_filter. split; [by apply bool_decide_pack|done].
      - intros Hall. destruct m as [|d m'] eqn:Hm; [done|].
        assert (d ∈ filter (λ d, matches_conversation conversation d) (chats st))
          as [Hc Hd]%list_elem_of_filter by (fold m; rewrite Hm; left).
        destruct (Hall d Hd). by apply bool_decide_unpack in Hc. }
    split.
    + destruct (take 100 (sort_timestamp 1 m)) as [|d l] eqn:Ht.
      * intros _. apply (f_equal length) in Ht.
        rewrite length_take, (Permutation_length (sort_timestamp_perm 1 m)) in Ht.
        destruct m; [done|simpl in Ht; lia].
      * by destruct (to_responses (d :: l)).
    + by intros ->.
  - intros fault result. unfold retrieve_chat. destruct fault; [done|].
    cbn [driver].
    destruct (take 100 _) as [|d l] eqn:Ht; [done|].
    destruct (to_responses (d :: l)) as [rs|] eqn:Hrs; [|done].
    intros [= <-]. apply to_responses_Forall2 in Hrs.
    assert (length (d :: l) = 100 `min`
              length (filter (λ d, matches_conversation conversation d)
                        (chats st))) as Hlen.
    { rewrite <-Ht, length_take.
      by rewrite (Permutation_length (sort_timestamp_perm 1 _)). }
    rewrite <-(Forall2_length _ _ _ Hrs).
    assert (length (d :: l) = S (length l)) as Hcons by done.
    split; [lia|]. split; [done|].
    assert (Forall (λ d, d_conversation_id d = conversation) (d :: l)) as Hall.
    { rewrite <-Ht. apply Forall_take, Forall_forall. intros x Hx.
      rewrite sort_timestamp_perm in Hx.
      apply list_elem_of_filter in Hx as [Hc _].
      by apply bool_decide_unpack in Hc. }
    clear -Hrs Hall. induction Hrs as [|x r xs rs Hxr _ IH]; [constructor|].
    apply Forall_cons in Hall as [Hx Hxs]. constructor; [|by apply IH].
    apply response_of_inv in Hxr as (_ & _ & _ & _ & ->). by rewrite Hx.
Qed.

Lemma retrieve_chat_bounds_witness :
  let doc i :=
    {| d_id := lit i; d_user_id := lit "u"; d_message := lit "hello";
       d_timestamp := Some (lit "2024-01-01T10:00:00");
       d_conversation_id := lit "c"; d_metadata := None |} in
  let st := {| chats := [doc "1"; doc "2"]; summaries := [] |} in
  ∃ result,
    retrieve_chat None (lit "c") st = Response 200 result ∧
    1 ≤ length result ≤ 100 ∧
    Forall (λ r, r_conversation_id r = Some (lit "c")) result.
Proof.
  intros doc st.
  destruct (retrieve_chat None (lit "c") st) as [status result|] eqn:Hr;
    [|by vm_compute in Hr].
  assert (status = 200) as -> by (vm_compute in Hr; congruence).
  exists result. split; [done|].
  destruct (retrieve_chat_bounds (lit "c") st) as [_ H].
  destruct (H None result Hr) as (? & _ & ?). done.
Defined.

(** X14. [GET /users/{id}/chats]: a request with [page < 1] or a [limit]
    outside 1..100 is answered 422; a 200 answer holds at most [limit]
    messages, as many as are left after skipping the earlier pages, and
    a page past the last message is empty, with the same total. *)
Theorem get_user_chats_page_bounds (fault_find fault_count : option exn)
    (text_search : str → str → bool) (user : str) (page limit : Z)
    (start_date end_date keyword : option str) (st : db) :
  ((page < 1 ∨ limit < 1 ∨ 100 < limit)%Z →
   get_user_chats fault_find fault_count text_search user page limit
     start_date end_date keyword st
   = HTTPException 422 (lit "Unprocessable Entity")) ∧
  ∀ r,
    get_user_chats fault_find fault_count text_search user page limit
      start_date end_date keyword st = Response 200 r →
    (1 ≤ page)%Z ∧ (1 ≤ limit ≤ 100)%Z ∧
    length (p_chats r)
    = Z.to_nat limit `min` (p_total r - Z.to_nat ((page - 1) * limit)) ∧
    (p_total r ≤ Z.to_nat ((page - 1) * limit) → p_chats r = []).
Proof.
  unfold get_user_chats. split.
  - intros Hbad.
    assert ((1 <=? page)%Z && (1 <=? limit)%Z && (limit <=? 100)%Z = false)
      as ->; [|done].
    rewrite !andb_false_iff, !Z.leb_gt. tauto.
  - intros r.
    destruct ((1 <=? page)%Z && (1 <=? limit)%Z && (limit <=? 100)%Z) eqn:Hok;
      [|done].
    apply andb_true_iff in Hok as [[Hp Hl1]%andb_true_iff Hl2].
    apply Z.leb_le in Hp, Hl1, Hl2. cbn [negb].
    destruct fault_find; [done|]. destruct fault_count; [done|].
    cbn [driver mbind py_bind]. rewrite take_take, Nat.min_id.
    destruct (to_responses _) as [rs|] eqn:Hrs; [|done].
    cbn [mbind py_bind]. intros [= <-]. cbn [p_chats p_total].
    apply to_responses_Forall2, Forall2_length in Hrs.
    rewrite length_take, length_drop in Hrs.
    rewrite (Permutation_length (sort_timestamp_perm _ _)) in Hrs.
    split; [done|]. split; [done|]. split; [done|].
    intros Hpast. destruct rs; [done|]. simpl in Hrs. lia.
Qed.

Lemma get_user_chats_page_bounds_witness :
  get_user_chats None None (λ _ _, true) (lit "u") 0 10 None None None
    {| chats := []; summaries := [] |}
  = HTTPException 422 (lit "Unprocessable Entity").
Proof.
  apply (get_user_chats_page_bounds None None (λ _ _, true) (lit "u") 0 10
           None None None {| chats := []; summaries := [] |}).
  lia.
Defined.

Lemma str_ltb_total a b :
  str_ltb a b = false → str_ltb b a = false → a = b.
Proof.
  revert b. induction a as [|x a IH]; intros [|y b]; simpl; try done.
  rewrite !orb_false_iff, !andb_false_iff, !N.ltb_ge, !N.eqb_neq.
  intros [Hxy Hab] [Hyx Hba].
  assert (code x = code y) as Hc by lia.
  assert (x = y) as ->.
  { unfold code in Hc.
    by rewrite <-(ascii_N_embedding x), <-(ascii_N_embedding y), Hc. }
  f_equal. apply IH.
  - by destruct Hab.
  - by destruct Hba.
Qed.

Lemma ts_ltb_total a b : ts_ltb a b = false → ts_ltb b a = false → a = b.
Proof.
  destruct a, b; simpl; try done. intros ??. f_equal. by apply str_ltb_total.
Qed.

(** The timestamps of a sorted list do not depend on the order given to
    equal timestamps: every list that holds the same documents, sorted
    the same way, has the timestamps of [sort_timestamp] at the same
    places. *)
Lemma sorted_timestamps_unique (l sorted : list chat_doc) :
  sorted ≡ₚ l →
  (StronglySorted (λ a b, ts_ltb (d_timestamp a) (d_timestamp b) = false)
     sorted →
   d_timestamp <$> sorted = d_timestamp <$> sort_timestamp (-1) l) ∧
  (StronglySorted (λ a b, ts_ltb (d_timestamp b) (d_timestamp a) = false)
     sorted →
   d_timestamp <$> sorted = d_timestamp <$> sort_timestamp 1 l).
Proof.
  intros Hperm. split; intros Hs.
  - apply (StronglySorted_unique_strong (λ x y, ts_ltb x y = false)).
    + intros x y _ _ Hxy Hyx. by apply ts_ltb_total.
    + by eapply StronglySorted_fmap; [|exact Hs].
    + eapply StronglySorted_fmap; [|apply sort_timestamp_descending]. done.
    + by rewrite Hperm, sort_timestamp_perm.
  - apply (StronglySorted_unique_strong (λ x y, ts_ltb y x = false)).
    + intros x y _ _ Hxy Hyx. by apply ts_ltb_total.
    + by eapply StronglySorted_fmap; [|exact Hs].
    + eapply StronglySorted_fmap; [|apply sort_timestamp_ascending]. done.
    + by rewrite Hperm, sort_timestamp_perm.
Qed.

Lemma NoDup_fmap_eq {A B} (f : A → B) (l : list A) x y :
  NoDup (f <$> l) → x ∈ l → y ∈ l → f x = f y → x = y.
Proof.
  induction l as [|a l IH]; csimpl; [by intros _ ?%elem_of_nil|].
  rewrite NoDup_cons, !elem_of_cons. intros [Ha Hl] [->|Hx] [->|Hy] Hf.
  - done.
  - destruct Ha. rewrite Hf. by apply list_elem_of_fmap_2.
  - destruct Ha. rewrite <-Hf. by apply list_elem_of_fmap_2.
  - by apply IH.
Qed.

(** When no two documents share a timestamp there is one newest-first
    list of them. *)
Lemma newest_first_unique (l sorted : list chat_doc) :
  NoDup (d_timestamp <$> l) →
  sorted ≡ₚ l →
  StronglySorted (λ a b, ts_ltb (d_timestamp a) (d_timestamp b) = false)
    sorted →
  sorted = sort_timestamp (-1) l.
Proof.
  intros Hnd Hperm Hs.
  apply (StronglySorted_unique_strong
           (λ a b, ts_ltb (d_timestamp a) (d_timestamp b) = false));
    [|done|apply sort_timestamp_descending
     |by rewrite Hperm, sort_timestamp_perm].
  intros x y Hx Hy Hxy Hyx.
  apply (NoDup_fmap_eq d_timestamp l); [done|by rewrite <-Hperm| |].
  - by rewrite sort_timestamp_perm in Hy.
  - by apply ts_ltb_total.
Qed.

(** X15. When no two messages that match the query share a timestamp,
    there is one newest-first list of them, whatever the store does with
    equal timestamps, and two consecutive pages continue one another in
    it: the messages of page [page] followed by those of page
    [page + 1] are the next [2 * limit] messages of that list, none
    repeated and none skipped, so no message of the later page is newer
    than a message of the earlier one. *)
Theorem consecutive_pages_continue (text_search : str → str → bool)
    (user : str) (page limit : Z) (start_date end_date keyword : option str)
    (st : db) (r1 r2 : ChatPaginationResponse) :
  let matching :=
    filter (λ d, user_query text_search user start_date end_date keyword d)
      (chats st) in
  NoDup (d_timestamp <$> matching) →
  get_user_chats None None text_search user page limit
    start_date end_date keyword st = Response 200 r1 →
  get_user_chats None None text_search user (page + 1) limit
    start_date end_date keyword st = Response 200 r2 →
  (∀ newest_first,
     newest_first ≡ₚ matching →
     StronglySorted (λ a b, ts_ltb (d_timestamp a) (d_timestamp b) = false)
       newest_first →
     Forall2 response_of
       (take (2 * Z.to_nat limit)
          (drop (Z.to_nat ((page - 1) * limit)) newest_first))
       (p_chats r1 ++ p_chats r2)) ∧
  StronglySorted (λ a b, str_ltb (r_timestamp a) (r_timestamp b) = false)
    (p_chats r1 ++ p_chats r2) ∧
  NoDup (r_timestamp <$> (p_chats r1 ++ p_chats r2)).
Proof.
  intros matching Hnd. unfold get_user_chats.
  destruct ((1 <=? page)%Z && (1 <=? limit)%Z && (limit <=? 100)%Z) eqn:Hok;
    [|done].
  apply andb_true_iff in Hok as [[Hp Hl1]%andb_true_iff Hl2].
  apply Z.leb_le in Hp, Hl1, Hl2.
  rewrite !(proj2 (Z.leb_le _ _)) by lia.
  cbn [andb negb driver mbind py_bind]. rewrite !take_take, !Nat.min_id.
  fold matching. set (sorted := sort_timestamp (-1) matching).
  destruct (to_responses (take _ (drop (Z.to_nat ((page - 1) * limit)) sorted)))
    as [rs1|] eqn:H1; [|done].
  destruct (to_responses (take _ (drop (Z.to_nat ((page + 1 - 1) * limit)) sorted)))
    as [rs2|] eqn:H2; [|done].
  cbn [mbind py_bind]. intros [= <-] [= <-]. cbn [p_chats].
  apply to_responses_Forall2 in H1, H2.
  assert (Forall2 response_of
            (take (2 * Z.to_nat limit)
               (drop (Z.to_nat ((page - 1) * limit)) sorted)) (rs1 ++ rs2)) as HF.
  { replace (2 * Z.to_nat limit) with (Z.to_nat limit + Z.to_nat limit) by lia.
    rewrite <-take_take_drop. apply Forall2_app; [done|].
    rewrite drop_drop.
    assert (Z.to_nat ((page - 1) * limit) + Z.to_nat limit
            = Z.to_nat ((page + 1 - 1) * limit)) as ->; [|done].
    rewrite <-Z2Nat.inj_add by nia. f_equal. lia. }
  split; [|split].
  - intros newest_first Hperm Hs.
    by rewrite (newest_first_unique matching newest_first Hnd Hperm Hs).
  - eapply (responses_sorted (λ x y, ts_ltb x y = false)
              (λ x y, str_ltb x y = false)); [done|exact HF|].
    apply StronglySorted_take, StronglySorted_drop, sort_timestamp_descending.
  - assert (NoDup (d_timestamp <$>
                     take (2 * Z.to_nat limit)
                       (drop (Z.to_nat ((page - 1) * limit)) sorted))) as Hpage.
    { rewrite fmap_take, fmap_drop.
      eapply sublist_NoDup; [|apply sublist_take].
      eapply sublist_NoDup; [|apply sublist_drop].
      unfold sorted. by rewrite sort_timestamp_perm. }
    assert (d_timestamp <$>
              take (2 * Z.to_nat limit)
                (drop (Z.to_nat ((page - 1) * limit)) sorted)
            = Some <$> (r_timestamp <$> (rs1 ++ rs2))) as Heq.
    { clear -HF. induction HF as [|d r ds rs Hdr _ IH]; [done|].
      csimpl. rewrite IH. f_equal. by apply response_of_inv in Hdr as (? & _). }
    rewrite Heq in Hpage. by apply (NoDup_fmap_1 Some) in Hpage.
Qed.

Lemma consecutive_pages_continue_witness :
  let doc i ts :=
    {| d_id := lit i; d_user_id := lit "u"; d_message := lit "hello";
       d_timestamp := Some (lit ts); d_conversation_id := lit "c";
       d_metadata := None |} in
  let st :=
    {| chats := [doc "1" "2024-01-01"; doc "2" "2024-01-03";
                 doc "3" "2024-01-02"];
       summaries := [] |} in
  ∃ r1 r2,
    get_user_chats None None (λ _ _, true) (lit "u") 1 2 None None None st
    = Response 200 r1 ∧
    get_user_chats None None (λ _ _, true) (lit "u") 2 2 None None None st
    = Response 200 r2 ∧
    r_id <$> (p_chats r1 ++ p_chats r2) = [lit "2"; lit "3"; lit "1"] ∧
    StronglySorted (λ a b, str_ltb (r_timestamp a) (r_timestamp b) = false)
      (p_chats r1 ++ p_chats r2) ∧
    NoDup (r_timestamp <$> (p_chats r1 ++ p_chats r2)).
Proof.
  intros doc st.
  destruct (get_user_chats None None (λ _ _, true) (lit "u") 1 2
              None None None st) as [s1 r1|] eqn:H1; [|by vm_compute in H1].
  destruct (get_user_chats None None (λ _ _, true) (lit "u") 2 2
              None None None st) as [s2 r2|] eqn:H2; [|by vm_compute in H2].
  assert (s1 = 200) as -> by (vm_compute in H1; congruence).
  assert (s2 = 200) as -> by (vm_compute in H2; congruence).
  exists r1, r2. split; [done|]. split; [done|]. split.
  - vm_compute in H1, H2. by injection H1 as <-; injection H2 as <-.
  - destruct (consecutive_pages_continue (λ _ _, true) (lit "u") 1 2
                None None None st r1 r2) as (_ & Hsorted & Hnd); [|done|done|done].
    apply (bool_decide_unpack _). by vm_compute.
Defined.

(** X16. A message stored with a null timestamp breaks the pages it falls
    on: the handler answers 500 instead of the page. *)
Theorem null_timestamp_fails_page (text_search : str → str → bool)
    (user : str) (page limit : Z) (start_date end_date keyword : option str)
    (st : db) :
  (1 ≤ page)%Z → (1 ≤ limit ≤ 100)%Z →
  Exists (λ d, d_timestamp d = None)
    (take (Z.to_nat limit)
       (drop (Z.to_nat ((page - 1) * limit))
          (sort_timestamp (-1)
             (filter (λ d, user_query text_search user start_date end_date
                             keyword d) (chats st))))) →
  ∃ detail,
    get_user_chats None None text_search user page limit
      start_date end_date keyword st = HTTPException 500 detail.
Proof.
  intros Hp [Hl1 Hl2] Hnull. unfold get_user_chats.
  rewrite !(proj2 (Z.leb_le _ _)) by lia.
  cbn [andb negb driver mbind py_bind]. rewrite take_take, Nat.min_id.
  unfold to_responses.
  destruct (to_responses_raises_from _ [] Hnull) as [e ->].
  cbn [mbind py_bind]. by eexists.
Qed.

Lemma null_timestamp_fails_page_witness :
  let chat :=
    {| user_id := lit "u"; message := lit "hello"; timestamp := None;
       conversation_id := None; metadata := None |} in
  let st := (store_chat None (lit "1") (lit "65f0") chat
               {| chats := []; summaries := [] |}).1 in
  ∃ detail,
    get_user_chats None None (λ _ _, true) (lit "u") 1 10 None None None st
    = HTTPException 500 detail.
Proof.
  intros chat st.
  apply (null_timestamp_fails_page (λ _ _, true) (lit "u") 1 10
           None None None st); [lia|lia|].
  vm_compute. by left.
Defined.

End retrieval_bounds.

(** ** Summaries, partial deletion, bulk insertion and date bounds *)

Section store_outcomes.
Import PyStr BackupSummary Main.

(** X17. When the store answers, [POST /chats/summarize] never answers 500:
    it answers 404 and changes nothing when the conversation has no
    message; otherwise it answers 200 with the adapter's string, appends
    one record holding that string and leaves the messages alone.
    Without an API key the string is the configuration error. *)
Theorem summarize_chat_outcomes (GEMINI_API_KEY : option str)
    (generate_content : str → py response) (now conversation : str)
    (max_length : option Z) (st : db) :
  let found :=
    take 100 (sort_timestamp 1
      (filter (λ d, matches_conversation conversation d) (chats st))) in
  let out :=
    summarize_chat None None GEMINI_API_KEY generate_content now
      conversation max_length st in
  ((∀ d, d ∈ chats st → d_conversation_id d ≠ conversation) →
   out = (st, HTTPException 404 (lit "Conversation not found"))) ∧
  ((∃ d, d ∈ chats st ∧ d_conversation_id d = conversation) →
   ∃ summary,
     get_gemini_summary GEMINI_API_KEY generate_content
       (transcript_of found) max_length = Ret summary ∧
     out.2 = Response 200 (conversation, summary) ∧
     chats out.1 = chats st ∧
     summaries out.1
     = summaries st ++ [{| s_conversation_id := conversation;
                           s_summary := summary; s_created_at := now |}] ∧
     (truthy GEMINI_API_KEY = false → summary = config_error)).
Proof.
  intros found out. subst out. unfold summarize_chat. cbn [driver].
  fold found. split.
  - intros Hnone.
    assert (found = []) as ->; [|done].
    destruct found as [|d l] eqn:Hf; [done|].
    assert (d ∈ found) as Hd by (rewrite Hf; left).
    apply elem_of_take in Hd as (i & Hd%list_elem_of_lookup_2 & _).
    rewrite sort_timestamp_perm in Hd.
    apply list_elem_of_filter in Hd as [Hc Hd].
    destruct (Hnone d Hd). by apply bool_decide_unpack in Hc.
  - intros (d & Hd & Hc).
    assert (found ≠ []) as Hne.
    { intros Hf. apply (f_equal length) in Hf. unfold found in Hf.
      rewrite length_take, (Permutation_length (sort_timestamp_perm _ _)) in Hf.
      assert (d ∈ filter (λ d, matches_conversation conversation d) (chats st))
        as Hin.
      { apply list_elem_of_filter. split; [by apply bool_decide_pack|done]. }
      destruct (filter _ (chats st)); [by apply elem_of_nil in Hin|].
      simpl in Hf. lia. }
    destruct found as [|d0 l0] eqn:Hf; [done|].
    destruct (get_gemini_summary_returns GEMINI_API_KEY generate_content
                (transcript_of (d0 :: l0)) max_length) as [summary Hs].
    rewrite Hs. exists summary. split; [done|]. split; [done|].
    split; [done|]. split; [done|].
    intros Hkey. unfold get_gemini_summary in Hs. rewrite Hkey in Hs.
    by injection Hs.
Qed.

Lemma summarize_chat_outcomes_witness :
  let st :=
    {| chats := [{| d_id := lit "1"; d_user_id := lit "u";
                    d_message := lit "hello";
                    d_timestamp := Some (lit "2024-01-01T10:00:00");
                    d_conversation_id := lit "c"; d_metadata := None |}];
       summaries := [] |} in
  (summarize_chat None None None (λ _, Raise IndexError)
     (lit "2024-01-02T10:00:00") (lit "c") (Some 100%Z) st).2
  = Response 200 (lit "c", config_error) ∧
  (summarize_chat None None None (λ _, Raise IndexError)
     (lit "2024-01-02T10:00:00") (lit "zz") (Some 100%Z) st)
  = (st, HTTPException 404 (lit "Conversation not found")).
Proof.
  intros st.
  destruct (summarize_chat_outcomes None (λ _, Raise IndexError)
              (lit "2024-01-02T10:00:00") (lit "c") (Some 100%Z) st)
    as [_ Hsome].
  destruct (summarize_chat_outcomes None (λ _, Raise IndexError)
              (lit "2024-01-02T10:00:00") (lit "zz") (Some 100%Z) st)
    as [Hnone _].
  split.
  - destruct Hsome as (summary & _ & -> & _ & _ & Hcfg).
    + eexists. split; [left|done].
    + by rewrite Hcfg.
  - apply Hnone. intros d ->%list_elem_of_singleton. by vm_compute.
Defined.

(** X18. Summaries are appended, never replaced: summarizing a conversation
    a second time answers 200 again and leaves both records, the older
    one first. *)
Theorem summarize_twice_appends (key1 key2 : option str)
    (api1 api2 : str → py response) (now1 now2 conversation : str)
    (m1 m2 : option Z) (st : db) (summary1 : str) :
  let out1 := summarize_chat None None key1 api1 now1 conversation m1 st in
  let out2 := summarize_chat None None key2 api2 now2 conversation m2 out1.1 in
  out1.2 = Response 200 (conversation, summary1) →
  ∃ summary2,
    out2.2 = Response 200 (conversation, summary2) ∧
    chats out2.1 = chats st ∧
    summaries out2.1
    = summaries st
      ++ [{| s_conversation_id := conversation; s_summary := summary1;
             s_created_at := now1 |};
          {| s_conversation_id := conversation; s_summary := summary2;
             s_created_at := now2 |}].
Proof.
  intros out1 out2 H1. subst out2.
  assert (chats out1.1 = chats st ∧
          summaries out1.1
          = summaries st ++ [{| s_conversation_id := conversation;
                                s_summary := summary1;
                                s_created_at := now1 |}] ∧
          take 100 (sort_timestamp 1
            (filter (λ d, matches_conversation conversation d) (chats st)))
          ≠ []) as (Hc & Hs & Hne).
  { subst out1. unfold summarize_chat in *. cbn [driver] in *.
    destruct (take 100 _) as [|d l]; [done|].
    destruct (get_gemini_summary _ _ _ _) as [s|]; [|done].
    cbn [fst snd chats summaries] in *. by injection H1 as ->. }
  unfold summarize_chat at 1 2 3. cbn [driver]. rewrite Hc.
  destruct (take 100 _) as [|d l] eqn:Hf; [done|].
  destruct (get_gemini_summary_returns key2 api2 (transcript_of (d :: l)) m2)
    as [summary2 ->].
  exists summary2. cbn [fst snd chats summaries].
  split; [done|]. split; [done|]. by rewrite Hs, <-(assoc_L (++)).
Qed.

Lemma summarize_twice_appends_witness :
  let st :=
    {| chats := [{| d_id := lit "1"; d_user_id := lit "u";
                    d_message := lit "hello";
                    d_timestamp := Some (lit "2024-01-01T10:00:00");
                    d_conversation_id := lit "c"; d_metadata := None |}];
       summaries := [] |} in
  let out1 := summarize_chat None None None (λ _, Raise IndexError)
                (lit "t1") (lit "c") None st in
  ∃ summary2,
    (summarize_chat None None None (λ _, Raise IndexError)
       (lit "t2") (lit "c") None out1.1).2
    = Response 200 (lit "c", summary2) ∧
    length (summaries
              (summarize_chat None None None (λ _, Raise IndexError)
                 (lit "t2") (lit "c") None out1.1).1) = 2.
Proof.
  intros st out1.
  destruct (summarize_twice_appends None None (λ _, Raise IndexError)
              (λ _, Raise IndexError) (lit "t1") (lit "t2") (lit "c")
              None None st config_error)
    as (summary2 & H2 & _ & Hs); [by vm_compute|].
  exists summary2. split; [exact H2|]. unfold out1. by rewrite Hs.
Defined.

(** X19. Deletion is not atomic. When the messages are deleted and the
    deletion of the summaries fails, the request answers 500, the
    messages are gone and the summaries stay; deleting again answers
    404 and still leaves them. *)
Theorem delete_chat_partial_failure (e : exn) (conversation : str) (st : db) :
  let st1 := (delete_chat None (Some e) conversation st).1 in
  (∃ d, d ∈ chats st ∧ d_conversation_id d = conversation) →
  (delete_chat None (Some e) conversation st).2
  = HTTPException 500 (lit "Failed to delete chat: " ++ exn_str e) ∧
  (∀ d, d ∈ chats st1 ↔ d ∈ chats st ∧ d_conversation_id d ≠ conversation) ∧
  summaries st1 = summaries st ∧
  delete_chat None None conversation st1
  = (st1, HTTPException 404 (lit "Chat not found")).
Proof.
  intros st1 (d & Hd & Hc).
  assert (delete_chat None (Some e) conversation st
          = ({| chats := filter (λ d, negb (matches_conversation conversation d))
                           (chats st);
                summaries := summaries st |},
             HTTPException 500 (lit "Failed to delete chat: " ++ exn_str e)))
    as Heq.
  { unfold delete_chat. cbn [driver].
    assert (d ∈ filter (λ d, matches_conversation conversation d) (chats st))
      as Hin.
    { apply list_elem_of_filter. split; [by apply bool_decide_pack|done]. }
    destruct (filter _ (chats st)) as [|d0 l0] eqn:Hf;
      [by apply elem_of_nil in Hin|done]. }
  subst st1. rewrite Heq. cbn [fst snd chats summaries].
  split; [done|]. split.
  { intros x. rewrite list_elem_of_filter. unfold matches_conversation.
    rewrite Is_true_true, negb_true_iff, bool_decide_eq_false. tauto. }
  split; [done|].
  unfold delete_chat. cbn [driver chats summaries].
  rewrite filter_matching_deleted. cbn [length]. f_equal. f_equal.
  apply filter_none_matching, filter_matching_deleted.
Qed.

Lemma delete_chat_partial_failure_witness :
  let st :=
    {| chats := [{| d_id := lit "1"; d_user_id := lit "u";
                    d_message := lit "hello";
                    d_timestamp := Some (lit "2024-01-01T10:00:00");
                    d_conversation_id := lit "c"; d_metadata := None |}];
       summaries := [{| s_conversation_id := lit "c";
                        s_summary := lit "A greeting.";
                        s_created_at := lit "2024-01-02T10:00:00" |}] |} in
  let e := Exn (lit "AutoReconnect") (lit "connection closed") in
  (delete_chat None (Some e) (lit "c") st).2
  = HTTPException 500 (lit "Failed to delete chat: connection closed") ∧
  summaries (delete_chat None (Some e) (lit "c") st).1 = summaries st.
Proof.
  intros st e.
  destruct (delete_chat_partial_failure e (lit "c") st)
    as (Hresp & _ & Hs & _).
  - eexists. split; [left|done].
  - split; [|done]. rewrite Hresp. by vm_compute.
Defined.

(** X20. [POST /chats/bulk] leaves the store as storing the messages one by
    one with [POST /chats] does, and for a non-empty list it answers
    201 with the number of messages and their ids in order. *)
Theorem bulk_store_is_sequential
    (chats_in : list (str * str * ChatMessage)) (st : db) :
  (store_chats_bulk None chats_in st).1
  = foldl (λ s c, (store_chat None c.1.1 c.1.2 c.2 s).1) st chats_in ∧
  (chats_in ≠ [] →
   (store_chats_bulk None chats_in st).2
   = Response 201 (lit "Chats stored successfully", length chats_in,
                   Some ((λ c, c.1.1) <$> chats_in))).
Proof.
  split.
  - assert (∀ s, foldl (λ s c, (store_chat None c.1.1 c.1.2 c.2 s).1) s chats_in
                 = {| chats := chats s
                        ++ ((λ c, doc_of c.1.1 c.1.2 c.2) <$> chats_in);
                      summaries := summaries s |}) as ->.
    { induction chats_in as [|c cs IH]; intros s; simpl.
      - rewrite app_nil_r. by destruct s.
      - rewrite IH. unfold store_chat. cbn [driver fst chats summaries].
        by rewrite <-(assoc_L (++)). }
    unfold store_chats_bulk. destruct chats_in as [|c cs]; simpl.
    + rewrite app_nil_r. by destruct st.
    + done.
  - intros Hne. unfold store_chats_bulk.
    destruct chats_in as [|c cs]; [done|]. cbn [fmap list_fmap driver snd].
    rewrite <-!list_fmap_compose. do 3 f_equal.
    simpl. by rewrite !length_fmap.
Qed.

Lemma bulk_store_is_sequential_witness :
  let chat m :=
    {| user_id := lit "u"; message := lit m; timestamp := None;
       conversation_id := Some (lit "c"); metadata := None |} in
  (store_chats_bulk None
     [(lit "1", lit "f1", chat "a"); (lit "2", lit "f2", chat "b")]
     {| chats := []; summaries := [] |}).2
  = Response 201 (lit "Chats stored successfully", 2,
                  Some [lit "1"; lit "2"]).
Proof.
  intros chat.
  by apply (bulk_store_is_sequential
              [(lit "1", lit "f1", chat "a"); (lit "2", lit "f2", chat "b")]
              {| chats := []; summaries := [] |}).
Defined.

(** X21. The date bounds of [GET /users/{id}/chats] are inclusive and hold
    for every message of the answer; an empty string as a bound is no
    bound at all. *)
Theorem user_chats_date_bounds (fault_find fault_count : option exn)
    (text_search : str → str → bool) (user : str) (page limit : Z)
    (start_date end_date keyword : option str) (st : db) :
  (∀ r start,
     get_user_chats fault_find fault_count text_search user page limit
       start_date end_date keyword st = Response 200 r →
     start_date = Some start → start ≠ [] →
     Forall (λ c, str_ltb (r_timestamp c) start = false) (p_chats r)) ∧
  (∀ r stop,
     get_user_chats fault_find fault_count text_search user page limit
       start_date end_date keyword st = Response 200 r →
     end_date = Some stop → stop ≠ [] →
     Forall (λ c, str_ltb stop (r_timestamp c) = false) (p_chats r)) ∧
  get_user_chats fault_find fault_count text_search user page limit
    (Some []) (Some []) keyword st
  = get_user_chats fault_find fault_count text_search user page limit
      None None keyword st.
Proof.
  assert (∀ r,
    get_user_chats fault_find fault_count text_search user page limit
      start_date end_date keyword st = Response 200 r →
    Forall (λ c, ∃ d, d_timestamp d = Some (r_timestamp c) ∧
                      in_range start_date end_date d = true) (p_chats r))
    as Hrange.
  { intros r. unfold get_user_chats. destruct (negb _); [done|].
    destruct fault_find; [done|]. destruct fault_count; [done|].
    cbn [driver mbind py_bind].
    destruct (to_responses _) as [rs|] eqn:Hrs; [|done].
    cbn [mbind py_bind]. intros [= <-]. cbn [p_chats].
    apply to_responses_Forall2 in Hrs.
    assert (Forall (λ d, in_range start_date end_date d = true)
              (take (Z.to_nat limit)
                 (take (Z.to_nat limit)
                    (drop (Z.to_nat ((page - 1) * limit))
                       (sort_timestamp (-1)
                          (filter (λ d, user_query text_search user start_date
                                          end_date keyword d) (chats st)))))))
      as Hall.
    { do 2 apply Forall_take. apply Forall_drop, Forall_forall. intros d Hd.
      rewrite sort_timestamp_perm in Hd.
      apply list_elem_of_filter in Hd as [Hq _]. unfold user_query in Hq.
      apply Is_true_true in Hq. rewrite !andb_true_iff in Hq. tauto. }
    induction Hrs as [|d c ds cs Hdc _ IH]; [constructor|].
    apply Forall_cons in Hall as [Hd Hds]. constructor; [|by apply IH].
    exists d. split; [|done]. by apply response_of_inv in Hdc as (? & _). }
  split; [|split].
  - intros r start Hr -> Hne. eapply Forall_impl; [by apply Hrange|].
    intros c (d & Hts & Hin). unfold in_range in Hin. rewrite Hts in Hin.
    destruct start as [|x start]; [done|]. simpl in Hin.
    apply andb_true_iff in Hin as [Hin _]. by apply negb_true_iff in Hin.
  - intros r stop Hr -> Hne. eapply Forall_impl; [by apply Hrange|].
    intros c (d & Hts & Hin). unfold in_range in Hin. rewrite Hts in Hin.
    destruct stop as [|x stop]; [done|].
    assert (truthy (Some (x :: stop)) = true) as Ht by done.
    rewrite Ht, orb_true_r in Hin.
    apply andb_true_iff in Hin as [_ Hin]. by apply negb_true_iff in Hin.
  - done.
Qed.

Lemma user_chats_date_bounds_witness :
  let doc i ts :=
    {| d_id := lit i; d_user_id := lit "u"; d_message := lit "hello";
       d_timestamp := Some (lit ts); d_conversation_id := lit "c";
       d_metadata := None |} in
  let st :=
    {| chats := [doc "1" "2024-01-01"; doc "2" "2024-01-03";
                 doc "3" "2024-01-02"];
       summaries := [] |} in
  ∃ r,
    get_user_chats None None (λ _ _, true) (lit "u") 1 10
      (Some (lit "2024-01-02")) None None st = Response 200 r ∧
    r_id <$> p_chats r = [lit "2"; lit "3"] ∧
    Forall (λ c, str_ltb (r_timestamp c) (lit "2024-01-02") = false) (p_chats r).
Proof.
  intros doc st.
  destruct (get_user_chats None None (λ _ _, true) (lit "u") 1 10
              (Some (lit "2024-01-02")) None None st) as [s r|] eqn:Hr;
    [|by vm_compute in Hr].
  assert (s = 200) as -> by (vm_compute in Hr; congruence).
  exists r. split; [done|]. split.
  - vm_compute in Hr. by injection Hr as <-.
  - by eapply (user_chats_date_bounds None None (λ _ _, true) (lit "u") 1 10
                 (Some (lit "2024-01-02")) None None st).
Defined.

End store_outcomes.

(** ** The fallback summarizer ignores surrounding whitespace *)

Section strip_invariance.
Import PyStr BackupSummary.

Lemma isspace_lower_char c : isspace (lower_char c) = isspace c.
Proof. destruct c as [[] [] [] [] [] [] [] []]; reflexivity. Qed.

Lemma lstrip_split s :
  ∃ w, s = w ++ lstrip s ∧ Forall (λ c, isspace c = true) w.
Proof.
  induction s as [|c s (w & IH & Hw)]; simpl; [by exists []|].
  destruct (isspace c) eqn:Hc; [|by exists []].
  exists (c :: w). split; [simpl; by f_equal|by constructor].
Qed.

Lemma rstrip_split s :
  ∃ w, s = rstrip s ++ w ∧ Forall (λ c, isspace c = true) w.
Proof.
  unfold rstrip. destruct (lstrip_split (reverse s)) as (w & Hw & Hsp).
  exists (reverse w). split; [|by apply Forall_reverse].
  by rewrite <-reverse_app, <-Hw, reverse_involutive.
Qed.

Lemma lstrip_idempotent s : lstrip (lstrip s) = lstrip s.
Proof.
  induction s as [|c s IH]; simpl; [done|].
  destruct (isspace c) eqn:Hc; [done|]. simpl. by rewrite Hc.
Qed.

Lemma lstrip_head s :
  lstrip s = [] ∨ ∃ c r, lstrip s = c :: r ∧ isspace c = false.
Proof.
  induction s as [|c s IH]; simpl; [by left|].
  destruct (isspace c) eqn:Hc; [done|]. right. by exists c, s.
Qed.

Lemma strip_idempotent s : strip (strip s) = strip s.
Proof.
  unfold strip.
  assert (lstrip (rstrip (lstrip s)) = rstrip (lstrip s)) as ->.
  { destruct (lstrip_head s) as [->|(c & r & -> & Hc)]; [done|].
    pose proof (rstrip_app_nonspace [] c r Hc) as H. cbn [app] in H.
    rewrite H. simpl. by rewrite Hc. }
  unfold rstrip. by rewrite reverse_involutive, lstrip_idempotent.
Qed.

Lemma split_ws_go_space_only cur w :
  Forall (λ c, isspace c = true) w →
  split_ws_go cur w = split_ws_go cur [].
Proof.
  intros Hw. revert cur. induction Hw as [|c w Hc _ IH]; intros cur; [done|].
  simpl. rewrite Hc. destruct cur; [by rewrite IH|]. by rewrite (IH []).
Qed.

Lemma split_ws_go_app_space cur s w :
  Forall (λ c, isspace c = true) w →
  split_ws_go cur (s ++ w) = split_ws_go cur s.
Proof.
  intros Hw. revert cur. induction s as [|c s IH]; intros cur.
  - by apply split_ws_go_space_only.
  - simpl. destruct (isspace c); [|by rewrite IH].
    destruct cur; by rewrite IH.
Qed.

Lemma split_ws_space_app w s :
  Forall (λ c, isspace c = true) w → split_ws (w ++ s) = split_ws s.
Proof.
  unfold split_ws. induction 1 as [|c w Hc _ IH]; [done|].
  simpl. by rewrite Hc.
Qed.

Lemma lower_space w :
  Forall (λ c, isspace c = true) w → Forall (λ c, isspace c = true) (lower w).
Proof.
  intros Hw. apply Forall_fmap. eapply Forall_impl; [done|].
  intros c Hc. simpl. by rewrite isspace_lower_char.
Qed.

Lemma words_of_strip s : words_of (strip s) = words_of s.
Proof.
  unfold words_of, strip.
  destruct (lstrip_split s) as (w & Hs & Hw).
  destruct (rstrip_split (lstrip s)) as (w' & Hs' & Hw').
  rewrite Hs at 2. rewrite Hs' at 2.
  unfold lower. rewrite !fmap_app.
  rewrite split_ws_space_app by (by apply lower_space).
  unfold split_ws. by rewrite split_ws_go_app_space by (by apply lower_space).
Qed.

(** X22. Whitespace around the transcript does not change the summary: the
    summary of the trimmed text is the summary of the text. *)
Theorem summary_ignores_surrounding_whitespace conversation_text max_length :
  generate_simple_summary (strip conversation_text) max_length
  = generate_simple_summary conversation_text max_length.
Proof.
  unfold generate_simple_summary.
  assert (lines_of (strip conversation_text) = lines_of conversation_text) as ->.
  { unfold lines_of. by rewrite strip_idempotent. }
  assert (top_words_of (strip conversation_text)
          = top_words_of conversation_text) as ->; [|done].
  unfold top_words_of, word_freq_of. by rewrite words_of_strip.
Qed.

End strip_invariance.
